(** * scribble: a tiny JSON database on the file system

    A shallow embedding of [scribble.go] (package scribble): the [Driver]
    with its lock registry, [New], [Write], [Read], [ReadAll], [ReadAllMap],
    [Delete], together with the parts of the Go runtime the driver calls
    (path/filepath, strings, os, io/ioutil, sync), and the properties of the
    storage engine stated in the design document.

    Conventions.  A Go [error] result is an [option error] ([None] is [nil]).
    A [[]byte] and a Go [string] are both a [string].  The platform is Unix:
    the separator is ["/"], a volume name is empty. *)

From Stdlib Require Import Ascii.
From Stdlib Require String.
From stdpp Require Import base option list strings gmap fin_maps sorting.

Set Default Proof Using "Type".

(** ** Package strings *)

Module strings.

(** [strings.HasPrefix] *)
Definition HasPrefix (s pre : string) : bool := String.prefix pre s.

(** [strings.Contains]: [substr] occurs somewhere in [s]. *)
Fixpoint Contains (s substr : string) : bool :=
  String.prefix substr s ||
  match s with
  | EmptyString => false
  | String _ s' => Contains s' substr
  end.

(** [strings.Count] for a non-empty [substr]: the number of
    non-overlapping occurrences, scanning from the left.  [skip] is the
    number of characters still covered by the occurrence just counted. *)
Fixpoint countFrom (skip : nat) (s substr : string) : nat :=
  match s with
  | EmptyString => 0
  | String _ s' =>
      match skip with
      | S k => countFrom k s' substr
      | O => if String.prefix substr s
             then S (countFrom (String.length substr - 1) s' substr)
             else countFrom 0 s' substr
      end
  end.

(** For the empty [substr] Go answers the number of code points plus one;
    strings are byte strings here. *)
Definition Count (s substr : string) : nat :=
  match substr with
  | EmptyString => S (String.length s)
  | _ => countFrom 0 s substr
  end.

(** [strings.Join(elems, sep)] *)
Fixpoint Join (elems : list string) (sep : string) : string :=
  match elems with
  | [] => ""
  | [e] => e
  | e :: rest => e +:+ sep +:+ Join rest sep
  end.

End strings.

(** ** Package path/filepath (Unix)

    [Clean] applies the four rules of its documentation to the elements
    of the path (see [Clean_table], the table of its tests). *)

Module filepath.

Definition Separator : ascii := "/"%char.

Definition isSep (c : ascii) : bool := bool_decide (c = Separator).

(** The elements of a path between separators; never the empty list:
    [split "a//b" = ["a"; ""; "b"]], [split "" = [""]]. *)
Fixpoint split (path : string) : list string :=
  match path with
  | EmptyString => [""]
  | String c rest =>
      if isSep c then "" :: split rest
      else match split rest with
           | [] => [String c ""]
           | e :: es => String c e :: es
           end
  end.

Definition rooted (path : string) : bool :=
  match path with
  | String c _ => isSep c
  | EmptyString => false
  end.

(** One turn of the loop of [Clean] over the element [elem].  [out] is the
    output written so far, last element first.
    - an empty element (a doubled separator) and ["."] are dropped;
    - [".."] backtracks over the last element when there is one that is
      not itself [".."]; otherwise it is dropped on a rooted path and
      kept on a relative one;
    - any other element is copied. *)
Definition cleanStep (isRooted : bool) (out : list string) (elem : string)
  : list string :=
  if bool_decide (elem = "") || bool_decide (elem = ".") then out
  else if bool_decide (elem = "..") then
    match out with
    | last :: out' =>
        if bool_decide (last = "..") then ".." :: out else out'
    | [] => if isRooted then [] else [".."]
    end
  else elem :: out.

Definition cleanElems (isRooted : bool) (elems : list string) : list string :=
  rev (fold_left (cleanStep isRooted) elems []).

(** [filepath.Clean]: the shortest path name equivalent to [path] by
    purely lexical processing.  The result ends in a separator only if it
    is the root; the empty result is ["."]. *)
Definition Clean (path : string) : string :=
  match path with
  | EmptyString => "."
  | _ =>
      let out := cleanElems (rooted path) (split path) in
      if rooted path then "/" +:+ strings.Join out "/"
      else match out with
           | [] => "."
           | _ => strings.Join out "/"
           end
  end.

(** [filepath.Join]: the elements from the first non-empty one on are
    joined with the separator and the result is cleaned; with no
    non-empty element the result is the empty string. *)
Fixpoint Join (elem : list string) : string :=
  match elem with
  | [] => ""
  | e :: rest =>
      if bool_decide (e = "") then Join rest
      else Clean (strings.Join elem "/")
  end.

(** The part of [path] up to and including its last separator. *)
Fixpoint upToLastSep (path : string) : string :=
  match path with
  | EmptyString => ""
  | String c rest =>
      if strings.Contains path "/" then String c (upToLastSep rest) else ""
  end.

(** [filepath.Dir]: all but the last element of [path], cleaned. *)
Definition Dir (path : string) : string := Clean (upToLastSep path).

End filepath.

(** ** Package os and io/ioutil: the file system

    The file system is a tree of directories and regular files without
    symbolic links, special files or permissions: a call fails only for
    what is or is not bound on the way.  A name is bound to a node; the
    bytes of a regular file live in its inode, so that an open file keeps
    designating the same bytes when its name is renamed or removed.  The
    functions follow the documentation of the Go packages. *)

Module os.

Inductive Errno := ENOENT | ENOTDIR | EISDIR | ENOTEMPTY | EINVAL | EBUSY.

Definition ErrnoString (e : Errno) : string :=
  match e with
  | ENOENT => "no such file or directory"
  | ENOTDIR => "not a directory"
  | EISDIR => "is a directory"
  | ENOTEMPTY => "directory not empty"
  | EINVAL => "invalid argument"
  | EBUSY => "device or resource busy"
  end.

(** The error values the driver meets: [*os.PathError], [*os.LinkError]
    and the values of [fmt.Errorf] (also used for the errors of the JSON
    codec). *)
Inductive error :=
| PathError (op path : string) (err : Errno)
| LinkError (op old new : string) (err : Errno)
| errorString (s : string).

(** [err.Error()] *)
Definition Error (e : error) : string :=
  match e with
  | PathError op path err => op +:+ " " +:+ path +:+ ": " +:+ ErrnoString err
  | LinkError op old new err =>
      op +:+ " " +:+ old +:+ " " +:+ new +:+ ": " +:+ ErrnoString err
  | errorString s => s
  end.

Definition ino := nat.

Inductive node := Dir | Reg (i : ino).

Record FS := mkFS {
  cwd : list string;                 (* working directory, resolved *)
  names : gmap (list string) node;   (* resolved name -> node; the root is implicit *)
  inodes : gmap ino string;          (* bytes of the regular files *)
  nextIno : ino                      (* next unused inode number *)
}.

(** What [Stat] reports of a node. *)
Record FileInfo := mkFileInfo { Name : string; IsDir : bool }.

Definition IsRegular (fi : FileInfo) : bool := negb (IsDir fi).

(** An open file: the inode and the offset of the descriptor. *)
Record File := mkFile { fino : ino; foffset : nat }.

(** Name resolution by the kernel: relative names start at the working
    directory; without symbolic links [".."] is the parent. *)
Definition resolve (fs : FS) (name : string) : list string :=
  rev (fold_left (filepath.cleanStep true) (filepath.split name)
         (if filepath.rooted name then [] else rev (cwd fs))).

Definition nodeAt (fs : FS) (p : list string) : option node :=
  match p with
  | [] => Some Dir
  | _ => names fs !! p
  end.

(** Walks from the directory [cur] down the elements [rest]: every node on
    the way has to be a directory. *)
Fixpoint walk (fs : FS) (cur rest : list string) : Errno + node :=
  match rest with
  | [] => match nodeAt fs cur with
          | Some n => inr n
          | None => inl ENOENT
          end
  | x :: rest' =>
      match nodeAt fs cur with
      | Some Dir => walk fs (cur ++ [x]) rest'
      | Some (Reg _) => inl ENOTDIR
      | None => inl ENOENT
      end
  end.

Definition lookupPath (fs : FS) (p : list string) : Errno + node :=
  walk fs [] p.

Definition parent (p : list string) : list string := removelast p.

Definition baseName (p : list string) : string := List.last p "/".

Definition infoOf (p : list string) (n : node) : FileInfo :=
  mkFileInfo (baseName p)
    (match n with Dir => true | Reg _ => false end).

(** [os.Stat] *)
Definition Stat (name : string) (fs : FS) : FileInfo + error :=
  let p := resolve fs name in
  match lookupPath fs p with
  | inr n => inl (infoOf p n)
  | inl e => inr (PathError "stat" name e)
  end.

(** [os.MkdirAll]: creates the directory and the missing ancestors, top
    down; an existing directory is kept, an existing regular file on the
    way is an error, reported with the name of that file.  The
    directories made before the error stay. *)
Fixpoint mkdirFrom (tree : gmap (list string) node) (cur rest : list string)
  : gmap (list string) node * option (list string) :=
  match rest with
  | [] => (tree, None)
  | x :: rest' =>
      let p := cur ++ [x] in
      match tree !! p with
      | Some Dir => mkdirFrom tree p rest'
      | Some (Reg _) => (tree, Some p)
      | None => mkdirFrom (<[p := Dir]> tree) p rest'
      end
  end.

Definition MkdirAll (name : string) (fs : FS) : FS * option error :=
  let '(tree, failed) := mkdirFrom (names fs) [] (resolve fs name) in
  (mkFS (cwd fs) tree (inodes fs) (nextIno fs),
   match failed with
   | None => None
   | Some p => Some (PathError "mkdir" ("/" +:+ strings.Join p "/") ENOTDIR)
   end).

Definition contents (fs : FS) (i : ino) : string :=
  default "" (inodes fs !! i).

(** [os.OpenFile(name, O_WRONLY|O_CREATE|O_TRUNC, perm)]: an existing
    regular file is truncated in place, a missing one is created empty. *)
Definition OpenFile (name : string) (fs : FS) : FS * (File + error) :=
  let p := resolve fs name in
  match p with
  | [] => (fs, inr (PathError "open" name EISDIR))
  | _ =>
      match lookupPath fs (parent p) with
      | inl e => (fs, inr (PathError "open" name e))
      | inr (Reg _) => (fs, inr (PathError "open" name ENOTDIR))
      | inr Dir =>
          match names fs !! p with
          | Some Dir => (fs, inr (PathError "open" name EISDIR))
          | Some (Reg i) =>
              (mkFS (cwd fs) (names fs) (<[i := ""]> (inodes fs)) (nextIno fs),
               inl (mkFile i 0))
          | None =>
              let i := nextIno fs in
              (mkFS (cwd fs) (<[p := Reg i]> (names fs))
                 (<[i := ""]> (inodes fs)) (S i),
               inl (mkFile i 0))
          end
      end
  end.

Definition zeros (n : nat) : string :=
  String.string_of_list_ascii (replicate n Ascii.zero).

(** The bytes of a file after [data] is written at offset [off]: a gap
    before [off] reads as zero bytes, bytes behind the written range
    stay. *)
Definition writeAt (old : string) (off : nat) (data : string) : string :=
  let n := String.length old in
  let m := String.length data in
  String.substring 0 off old +:+ zeros (off - n) +:+ data
    +:+ String.substring (off + m) (n - (off + m)) old.

(** [f.Write(data)] *)
Definition Write (f : File) (data : string) (fs : FS) : FS * File :=
  (mkFS (cwd fs) (names fs)
     (<[fino f := writeAt (contents fs (fino f)) (foffset f) data]> (inodes fs))
     (nextIno fs),
   mkFile (fino f) (foffset f + String.length data)).

(** [f.Close()] *)
Definition Close (f : File) (fs : FS) : FS * option error := (fs, None).

(** [ioutil.WriteFile]: open for writing with truncation, write, close. *)
Definition WriteFile (name data : string) (fs : FS) : FS * option error :=
  match OpenFile name fs with
  | (fs1, inr err) => (fs1, Some err)
  | (fs1, inl f) =>
      let '(fs2, f') := Write f data fs1 in
      Close f' fs2
  end.

(** [ioutil.ReadFile] *)
Definition ReadFile (name : string) (fs : FS) : string + error :=
  match lookupPath fs (resolve fs name) with
  | inl e => inr (PathError "open" name e)
  | inr Dir => inr (PathError "read" name EISDIR)
  | inr (Reg i) => inl (contents fs i)
  end.

(** The names bound at or below [p] move to [q]. *)
Definition rebase (p q k : list string) : list string :=
  if bool_decide (p `prefix_of` k) then q ++ drop (length p) k else k.

Definition hasChild (fs : FS) (p : list string) : bool :=
  existsb (λ kv, bool_decide (p `prefix_of` kv.1 ∧ kv.1 ≠ p))
    (map_to_list (names fs)).

(** [os.Rename]: the name [oldname] is rebound to [newname] in one step,
    replacing a regular file (or an empty directory, for a directory)
    bound there. *)
Definition Rename (oldname newname : string) (fs : FS) : FS * option error :=
  let po := resolve fs oldname in
  let pn := resolve fs newname in
  let fail e := (fs, Some (LinkError "rename" oldname newname e)) in
  match po, pn with
  | [], _ | _, [] => fail EBUSY
  | _, _ =>
      match lookupPath fs po with
      | inl e => fail e
      | inr n =>
          match lookupPath fs (parent pn) with
          | inl e => fail e
          | inr (Reg _) => fail ENOTDIR
          | inr Dir =>
              match n, names fs !! pn with
              | Reg i, Some Dir => fail EISDIR
              | Reg i, _ =>
                  (mkFS (cwd fs) (<[pn := Reg i]> (delete po (names fs)))
                     (inodes fs) (nextIno fs), None)
              | Dir, Some (Reg _) => fail ENOTDIR
              | Dir, _ =>
                  if bool_decide (po = pn) then (fs, None)
                  else if bool_decide (po `prefix_of` pn) then fail EINVAL
                  else if hasChild fs pn then fail ENOTEMPTY
                  else
                    (mkFS (cwd fs)
                       (list_to_map
                          (prod_map (rebase po pn) id <$>
                             map_to_list (delete pn (names fs))))
                       (inodes fs) (nextIno fs), None)
              end
          end
      end
  end.

(** [os.RemoveAll]: removes the name and everything below it; a missing
    name is not an error. *)
Definition RemoveAll (name : string) (fs : FS) : FS * option error :=
  let p := resolve fs name in
  (mkFS (cwd fs) (filter (λ kv, ¬ p `prefix_of` kv.1) (names fs))
     (inodes fs) (nextIno fs), None).

Definition nameLe (a b : FileInfo) : Prop := String.leb (Name a) (Name b) = true.

#[export] Instance nameLe_dec a b : Decision (nameLe a b).
Proof. unfold nameLe. apply _. Defined.

(** [ioutil.ReadDir]: the entries of the directory, sorted by name. *)
Definition ReadDir (name : string) (fs : FS) : list FileInfo + error :=
  let p := resolve fs name in
  match lookupPath fs p with
  | inl e => inr (PathError "open" name e)
  | inr (Reg _) => inr (PathError "readdirent" name ENOTDIR)
  | inr Dir =>
      inl (merge_sort nameLe
             (omap (λ kv, if bool_decide (parent kv.1 = p ∧ kv.1 ≠ [])
                          then Some (infoOf kv.1 kv.2) else None)
                (map_to_list (names fs))))
  end.

End os.

(** ** Package sync *)

Module sync.

(** A [sync.Mutex] is a struct, copied when it is assigned, stored in a
    map or returned by value; its state is whether it is held. *)
Record Mutex := mkMutex { locked : bool }.

(** [sync.Mutex{}] *)
Definition zero : Mutex := mkMutex false.

(** [m.Lock()]: the mutex after the call, or [None] when the caller has to
    wait because the mutex is held. *)
Definition Lock (m : Mutex) : option Mutex :=
  if locked m then None else Some (mkMutex true).

(** [m.Unlock()] by the holder. *)
Definition Unlock (m : Mutex) : Mutex := mkMutex false.

End sync.

(** ** Package scribble *)

Module scribble.

Import os.

Definition tab : string := String (ascii_of_nat 9) "".

(** [Driver] (the [log] field is left out: the logger only receives the
    two debug lines of [New]). *)
Record Driver := mkDriver {
  mutex : sync.Mutex;
  mutexes : gmap string sync.Mutex;
  dir : string
}.

(** The result of a call of a method of the [*Driver] [d]: the call
    returns [a] and leaves the driver and the file system as given, or it
    waits for a mutex for ever. *)
Inductive outcome (A : Type) :=
| Blocks
| Returns (a : A) (d : Driver) (fs : FS).
Arguments Blocks {A}.
Arguments Returns {A} a d fs.

(** The test of [New] on the cleaned directory. *)
Definition unsafeRoot (dir : string) : bool :=
  bool_decide (dir = "/") || bool_decide (dir = "C:\") || bool_decide (dir = "~")
  || (strings.HasPrefix dir "/home/" && (strings.Count dir "/" <=? 2)).

(** [New(dir, options)]; [options] only chooses the logger. *)
Definition New (dir : string) (fs : FS) : FS * (option Driver * option error) :=
  let dir := filepath.Clean dir in
  if unsafeRoot dir then
    (fs, (None, Some (errorString "Missing or unsafe filepath - no place to create db!")))
  else
    let driver := mkDriver sync.zero ∅ dir in
    match Stat dir fs with
    | inl _ => (fs, (Some driver, None))
    | inr _ =>
        let '(fs, err) := MkdirAll dir fs in
        (fs, (Some driver, err))
    end.

(** [stat] *)
Definition stat (path : string) (fs : FS) : FileInfo + error := Stat path fs.

(** [d.getOrCreateMutex(collection)]: under the registry mutex, the value
    stored for the key, after storing a new mutex when there is none.  The
    mutex is returned by value. *)
Definition getOrCreateMutex (d : Driver) (collection : string)
  : option (sync.Mutex * Driver) :=
  match sync.Lock (mutex d) with
  | None => None
  | Some held =>
      let '(m, ms) :=
        match mutexes d !! collection with
        | Some m => (m, mutexes d)
        | None => let m := sync.zero in (m, <[collection := m]> (mutexes d))
        end in
      Some (m, mkDriver (sync.Unlock held) ms (dir d))
  end.

Section codec.

(** The JSON codec ([encoding/json]) for the values stored. *)
Context {Value : Type}.
Variable MarshalIndent : Value → string → string → string + error.
Variable Unmarshal : string → Value + error.

(** [d.Write(collection, resource, v)] *)
Definition Write (d : Driver) (fs : FS) (collection resource : string) (v : Value)
  : outcome (option error) :=
  if bool_decide (collection = "") then
    Returns (Some (errorString "Missing collection - no place to save record!")) d fs
  else if bool_decide (resource = "") then
    Returns (Some (errorString "Missing resource - unable to save record - no name!")) d fs
  else
    match getOrCreateMutex d collection with
    | None => Blocks
    | Some (mutex, d) =>
        match sync.Lock mutex with
        | None => Blocks
        | Some mutex =>
            (* defer mutex.Unlock() *)
            let dir := filepath.Join [dir d; collection] in
            let fnlPath := filepath.Join [dir; resource] in
            let tmpPath := fnlPath +:+ ".tmp" in
            match MkdirAll dir fs with
            | (fs, Some err) => Returns (Some err) d fs
            | (fs, None) =>
                match MarshalIndent v "" tab with
                | inr err => Returns (Some err) d fs
                | inl b =>
                    match WriteFile tmpPath b fs with
                    | (fs, Some err) => Returns (Some err) d fs
                    | (fs, None) =>
                        let '(fs, err) := Rename tmpPath fnlPath fs in
                        Returns err d fs
                    end
                end
            end
        end
    end.

(** [d.Read(collection, resource, v)]: the value decoded into [v], or the
    error. *)
Definition Read (d : Driver) (fs : FS) (collection resource : string)
  : outcome (Value + error) :=
  if bool_decide (collection = "") then
    Returns (inr (errorString "Missing collection - no place to read record!")) d fs
  else if bool_decide (resource = "") then
    Returns (inr (errorString "Missing resource - unable to read record - no name!")) d fs
  else
    let record := filepath.Join [dir d; collection; resource] in
    match stat record fs with
    | inr err => Returns (inr err) d fs
    | inl _ =>
        match ReadFile record fs with
        | inr err => Returns (inr err) d fs
        | inl b => Returns (Unmarshal b) d fs
        end
    end.

End codec.

(** The loop of [ReadAll]: the bytes of each file, or the first error. *)
Fixpoint readRecords (dir : string) (files : list FileInfo) (fs : FS)
  : list string + error :=
  match files with
  | [] => inl []
  | f :: files' =>
      match ReadFile (filepath.Join [dir; Name f]) fs with
      | inr err => inr err
      | inl b =>
          match readRecords dir files' fs with
          | inr err => inr err
          | inl records => inl (b :: records)
          end
      end
  end.

Definition collectionNotFound (dir : string) (err : error) : error :=
  errorString ("Directory '" +:+ dir +:+ "' does not exist - " +:+ Error err +:+ "!").

(** [d.ReadAll(collection)] *)
Definition ReadAll (d : Driver) (fs : FS) (collection : string)
  : outcome (list string + error) :=
  if bool_decide (collection = "") then
    Returns (inr (errorString "Missing collection - unable to read location!")) d fs
  else
    let dir := filepath.Join [dir d; collection] in
    match stat dir fs with
    | inr err => Returns (inr (collectionNotFound dir err)) d fs
    | inl _ =>
        (* files, _ := ioutil.ReadDir(dir) *)
        let files := match ReadDir dir fs with inl files => files | inr _ => [] end in
        Returns (readRecords dir files fs) d fs
    end.

(** The loop of [ReadAllMap]: file name and bytes, a later file replacing
    an earlier one of the same name. *)
Fixpoint readRecordsMap (dir : string) (files : list FileInfo) (fs : FS)
  (records : gmap string string) : gmap string string + error :=
  match files with
  | [] => inl records
  | f :: files' =>
      match ReadFile (filepath.Join [dir; Name f]) fs with
      | inr err => inr err
      | inl b => readRecordsMap dir files' fs (<[Name f := b]> records)
      end
  end.

(** [d.ReadAllMap(collection)] *)
Definition ReadAllMap (d : Driver) (fs : FS) (collection : string)
  : outcome (gmap string string + error) :=
  if bool_decide (collection = "") then
    Returns (inr (errorString "Missing collection - unable to read location!")) d fs
  else
    let dir := filepath.Join [dir d; collection] in
    match stat dir fs with
    | inr err => Returns (inr (collectionNotFound dir err)) d fs
    | inl _ =>
        let files := match ReadDir dir fs with inl files => files | inr _ => [] end in
        Returns (readRecordsMap dir files fs ∅) d fs
    end.

(** [d.Delete(collection, resource)] *)
Definition Delete (d : Driver) (fs : FS) (collection resource : string)
  : outcome (option error) :=
  let resource := filepath.Clean resource in
  let collection := filepath.Clean collection in
  if bool_decide (collection = "") || bool_decide (collection = "/")
     || bool_decide (collection = ".") then
    Returns (Some (errorString "Missing collection - no place to delete record!")) d fs
  else
    let path := filepath.Join [collection; resource] in
    match getOrCreateMutex d path with
    | None => Blocks
    | Some (mutex, d) =>
        match sync.Lock mutex with
        | None => Blocks
        | Some mutex =>
            (* defer mutex.Unlock() *)
            let dir := filepath.Join [dir d; path] in
            match stat dir fs with
            | inr err =>
                if strings.Contains (Error err) "no such file" then Returns None d fs
                else Returns (Some (errorString
                       ("Unable to stat " +:+ dir +:+ " - " +:+ Error err +:+ "!"))) d fs
            | inl fi =>
                if IsDir fi || IsRegular fi then
                  let '(fs, err) := RemoveAll dir fs in
                  Returns err d fs
                else Returns None d fs
            end
        end
    end.

End scribble.

(** ** Goroutines calling [Write] on one driver

    A call of [Write] run by a goroutine, cut at its accesses to what the
    goroutines share: the driver behind the pointer [d] and the file
    system.  Each access is one atomic step ([getOrCreateMutex] runs under
    the registry mutex; the others are one system call each, [WriteFile]
    being the three calls open, write, close).  The variables of the call
    ([mutex], [b], the open file) belong to the goroutine. *)

Module goroutine.

Import os scribble.

Section codec.

Context {Value : Type}.
Variable MarshalIndent : Value → string → string → string + error.

Inductive point :=
| AtEntry
| AtGetMutex
| AtLock (mutex : sync.Mutex)
| AtMkdirAll (mutex : sync.Mutex)
| AtMarshal (mutex : sync.Mutex)
| AtOpenFile (mutex : sync.Mutex) (b : string)
| AtFileWrite (mutex : sync.Mutex) (f : File) (b : string)
| AtClose (mutex : sync.Mutex) (f : File)
| AtRename (mutex : sync.Mutex)
| AtUnlock (mutex : sync.Mutex) (err : option error)
| Returned (err : option error).

Record call := mkCall {
  collection : string;
  resource : string;
  v : Value;
  pc : point
}.

(** [go d.Write(collection, resource, v)] *)
Definition spawn (collection resource : string) (v : Value) : call :=
  mkCall collection resource v AtEntry.

Definition at_ (g : call) (pc : point) : call :=
  mkCall (collection g) (resource g) (v g) pc.

(** One step of the call [g]; [None] when the call has returned or
    waits for a mutex. *)
Definition step (g : call) (d : Driver) (fs : FS) : option (call * Driver * FS) :=
  let dir := filepath.Join [dir d; collection g] in
  let fnlPath := filepath.Join [dir; resource g] in
  let tmpPath := fnlPath +:+ ".tmp" in
  match pc g with
  | AtEntry =>
      if bool_decide (collection g = "") then
        Some (at_ g (Returned (Some (errorString
          "Missing collection - no place to save record!"))), d, fs)
      else if bool_decide (resource g = "") then
        Some (at_ g (Returned (Some (errorString
          "Missing resource - unable to save record - no name!"))), d, fs)
      else Some (at_ g AtGetMutex, d, fs)
  | AtGetMutex =>
      match getOrCreateMutex d (collection g) with
      | None => None
      | Some (mutex, d) => Some (at_ g (AtLock mutex), d, fs)
      end
  | AtLock mutex =>
      match sync.Lock mutex with
      | None => None
      | Some mutex => Some (at_ g (AtMkdirAll mutex), d, fs)
      end
  | AtMkdirAll mutex =>
      match MkdirAll dir fs with
      | (fs, Some err) => Some (at_ g (AtUnlock mutex (Some err)), d, fs)
      | (fs, None) => Some (at_ g (AtMarshal mutex), d, fs)
      end
  | AtMarshal mutex =>
      match MarshalIndent (v g) "" tab with
      | inr err => Some (at_ g (AtUnlock mutex (Some err)), d, fs)
      | inl b => Some (at_ g (AtOpenFile mutex b), d, fs)
      end
  | AtOpenFile mutex b =>
      match OpenFile tmpPath fs with
      | (fs, inr err) => Some (at_ g (AtUnlock mutex (Some err)), d, fs)
      | (fs, inl f) => Some (at_ g (AtFileWrite mutex f b), d, fs)
      end
  | AtFileWrite mutex f b =>
      let '(fs, f) := os.Write f b fs in
      Some (at_ g (AtClose mutex f), d, fs)
  | AtClose mutex f =>
      match Close f fs with
      | (fs, Some err) => Some (at_ g (AtUnlock mutex (Some err)), d, fs)
      | (fs, None) => Some (at_ g (AtRename mutex), d, fs)
      end
  | AtRename mutex =>
      let '(fs, err) := Rename tmpPath fnlPath fs in
      Some (at_ g (AtUnlock mutex err), d, fs)
  | AtUnlock mutex err =>
      let _ := sync.Unlock mutex in
      Some (at_ g (Returned err), d, fs)
  | Returned _ => None
  end.

(** The call holds the mutex it took: it is between [mutex.Lock()] and
    the deferred [mutex.Unlock()]. *)
Definition holdsMutex (g : call) : bool :=
  match pc g with
  | AtMkdirAll _ | AtMarshal _ | AtOpenFile _ _ | AtFileWrite _ _ _
  | AtClose _ _ | AtRename _ | AtUnlock _ _ => true
  | _ => false
  end.

Definition returned (g : call) : option (option error) :=
  match pc g with
  | Returned err => Some err
  | _ => None
  end.

(** The call run with no other goroutine, for at most [n] steps. *)
Fixpoint runAlone (n : nat) (g : call) (d : Driver) (fs : FS)
  : outcome (option error) :=
  match returned g with
  | Some err => Returns err d fs
  | None =>
      match n with
      | O => Blocks
      | S n' =>
          match step g d fs with
          | None => Blocks
          | Some (g', d', fs') => runAlone n' g' d' fs'
          end
      end
  end.

(** The goroutines [gs] run under the schedule [sched], a list of
    indices: at each turn the chosen goroutine takes a step if it
    can. *)
Fixpoint run (sched : list nat) (gs : list call) (d : Driver) (fs : FS)
  : list call * Driver * FS :=
  match sched with
  | [] => (gs, d, fs)
  | i :: sched' =>
      match gs !! i with
      | None => run sched' gs d fs
      | Some g =>
          match step g d fs with
          | None => run sched' gs d fs
          | Some (g', d', fs') => run sched' (<[i := g']> gs) d' fs'
          end
      end
  end.

End codec.

End goroutine.

(** ** A codec for the JSON literals, to run the driver on *)

Module literal.

Import os.

Inductive Value := null | true_ | false_.

Definition MarshalIndent (v : Value) (pre indent : string) : string + error :=
  inl match v with
      | null => "null"
      | true_ => "true"
      | false_ => "false"
      end.

Definition Unmarshal (b : string) : Value + error :=
  if bool_decide (b = "null") then inl null
  else if bool_decide (b = "true") then inl true_
  else if bool_decide (b = "false") then inl false_
  else inr (errorString "invalid character looking for beginning of value").

End literal.

(** ** Notions used in the statements *)

(** No separator occurs in [s]. *)
Definition sepFree (s : string) : Prop := strings.Contains s "/" = false.

(** A name of one element: what a collection or a resource is called. *)
Definition simpleName (s : string) : Prop :=
  s ≠ "" ∧ s ≠ "." ∧ s ≠ ".." ∧ sepFree s.

#[export] Instance simpleName_dec s : Decision (simpleName s).
Proof. unfold simpleName, sepFree. apply _. Defined.

(** The output of the loop of [Clean], last element first: elements
    without separator, none empty or ["."], and [".."] only at the start of
    a relative path. *)
Inductive cleaned (isRooted : bool) : list string → Prop :=
| cleaned_nil : cleaned isRooted []
| cleaned_name x out :
    simpleName x → cleaned isRooted out → cleaned isRooted (x :: out)
| cleaned_dotdot_first :
    isRooted = false → cleaned isRooted [".."]
| cleaned_dotdot out :
    isRooted = false → cleaned isRooted (".." :: out) →
    cleaned isRooted (".." :: ".." :: out).

(** No mutex of the driver is held: the state between two calls. *)
Definition registryFree (d : scribble.Driver) : Prop :=
  sync.locked (scribble.mutex d) = false ∧
  ∀ key m, scribble.mutexes d !! key = Some m → sync.locked m = false.

(** The bytes of the regular file bound to the resolved name [p]. *)
Definition fileAt (fs : os.FS) (p : list string) : option string :=
  match os.names fs !! p with
  | Some (os.Reg i) => Some (os.contents fs i)
  | _ => None
  end.

(** Every regular file has one name and an inode number already given
    out: the file system has no hard links. *)
Definition noLinks (fs : os.FS) : Prop :=
  ∀ p q i, os.names fs !! p = Some (os.Reg i) →
    (i < os.nextIno fs) ∧ (os.names fs !! q = Some (os.Reg i) → p = q).

(** The path [Delete] removes. *)
Definition deleteTarget (d : scribble.Driver) (collection resource : string) : string :=
  filepath.Join [scribble.dir d;
    filepath.Join [filepath.Clean collection; filepath.Clean resource]].

(** The test of [Delete] on the collection passes. *)
Definition deletable (collection : string) : Prop :=
  filepath.Clean collection ≠ "" ∧ filepath.Clean collection ≠ "/"
  ∧ filepath.Clean collection ≠ ".".

Definition unsafeLocation : os.error :=
  os.errorString "Missing or unsafe filepath - no place to create db!".

(** The cleaned roots [New] refuses: the root, the drive root, the home
    shorthand, and the directories one element below [/home]. *)
Definition refusedRoot (p : string) : Prop :=
  p = "/" ∨ p = "C:\" ∨ p = "~" ∨ ∃ name, p = "/home/" +:+ name ∧ sepFree name.

(** An empty disk, the working directory being [/work]. *)
Definition emptyFS : os.FS := os.mkFS ["work"] ∅ ∅ 0.

#[export] Instance deletable_dec c : Decision (deletable c).
Proof. unfold deletable. apply _. Defined.

#[export] Instance node_eq_dec : EqDecision os.node.
Proof. solve_decision. Defined.

(** The store of the tests of the package: the driver of
    [New("/tmp/deep/school")] on the empty disk, and the disk after
    [Write("fish", "redfish", true)]. *)
Definition schoolDriver : scribble.Driver :=
  scribble.mkDriver sync.zero ∅ "/tmp/deep/school".

Definition school : os.FS := (scribble.New "/tmp/deep/school" emptyFS).1.

(** The driver and the file system a call leaves. *)
Definition driverAfter {A} (o : scribble.outcome A) (d0 : scribble.Driver)
  : scribble.Driver :=
  match o with scribble.Returns _ d _ => d | scribble.Blocks => d0 end.

Definition fsAfter {A} (o : scribble.outcome A) (fs0 : os.FS) : os.FS :=
  match o with scribble.Returns _ _ fs => fs | scribble.Blocks => fs0 end.

Definition stockedDriver : scribble.Driver :=
  driverAfter (scribble.Write literal.MarshalIndent schoolDriver school
                 "fish" "redfish" literal.true_) schoolDriver.

Definition stocked : os.FS :=
  fsAfter (scribble.Write literal.MarshalIndent schoolDriver school
             "fish" "redfish" literal.true_) school.

(** Two goroutines, [0] and [1]: each runs up to the opening of the
    temporary file, then each writes, then each closes, renames and
    returns. *)
Definition interleaved : list nat :=
  [0; 0; 0; 0; 0; 0;  1; 1; 1; 1; 1; 1;  0;  1;  0; 0; 0;  1; 1; 1].

(** A disk where [/tmp] is a regular file. *)
Definition tmpFileFS : os.FS :=
  os.mkFS ["work"] {[ ["tmp"] := os.Reg 0 ]} {[ 0 := "scratch" ]} 1.

(** Every element of the working directory and of every bound name is a
    name of one element, as name resolution makes them. *)
Definition wellNamed (fs : os.FS) : Prop :=
  Forall simpleName (os.cwd fs) ∧
  map_Forall (λ k _, Forall simpleName k) (os.names fs).

#[export] Instance wellNamed_dec fs : Decision (wellNamed fs).
Proof. unfold wellNamed. apply _. Defined.

Definition missingCollection : os.error :=
  os.errorString "Missing collection - no place to delete record!".


(** The store of the tests after [Write("fish", "no such file", true)]. *)
Definition misnamed : os.FS :=
  fsAfter (scribble.Write literal.MarshalIndent schoolDriver school
             "fish" "no such file" literal.true_) school.

(** The table of [TestClean] in the Go distribution, in part. *)
Example Clean_table :
  map filepath.Clean
    [ ""; "abc"; "abc/def"; "a/b/c"; "."; ".."; "../.."; "../../abc"; "/abc"; "/";
      "abc/"; "abc/def/"; "a/b/c/"; "./"; "../"; "../../"; "/abc/";
      "abc//def//ghi"; "//abc"; "///abc"; "//abc//"; "abc//";
      "abc/./def"; "/./abc/def"; "abc/.";
      "abc/def/ghi/../jkl"; "abc/def/../ghi/../jkl"; "abc/def/.."; "abc/def/../..";
      "/abc/def/../.."; "abc/def/../../.."; "/abc/def/../../..";
      "abc/def/../../../ghi/jkl/../../../mno"; "/../abc";
      "abc/./../def"; "abc//./../def"; "abc/../../././../def" ]
  = [ "."; "abc"; "abc/def"; "a/b/c"; "."; ".."; "../.."; "../../abc"; "/abc"; "/";
      "abc"; "abc/def"; "a/b/c"; "."; ".."; "../.."; "/abc";
      "abc/def/ghi"; "/abc"; "/abc"; "/abc"; "abc";
      "abc/def"; "/abc/def"; "abc";
      "abc/def/jkl"; "abc/jkl"; "abc"; ".";
      "/"; ".."; "/";
      "../../mno"; "/abc";
      "def"; "def"; "../../def" ].
Proof. reflexivity. Qed.

Example Join_table :
  map filepath.Join
    [ []; [""]; ["a"]; ["a"; "b"]; ["a"; ""]; [""; "b"]; ["/"; "a"]; ["/"; ""];
      ["a/"; "b"]; ["a/"; ""]; [""; ""]; ["/"; "a"; "b"]; ["a"; ".."]; ["/db"; "."] ]
  = [ ""; ""; "a"; "a/b"; "a"; "b"; "/a"; "/";
      "a/b"; "a"; ""; "/a/b"; "."; "/db" ].
Proof. reflexivity. Qed.

Example Dir_table :
  map filepath.Dir [ ""; "."; "/."; "/"; "////"; "/foo"; "x/"; "abc"; "abc/def"; "a/b/.x"; "a/b/c."; "a/b/c.x" ]
  = [ "."; "."; "/"; "/"; "/"; "/"; "x"; "."; "abc"; "a/b"; "a/b"; "a/b" ].
Proof. reflexivity. Qed.

Example Count_table :
  map (λ s, strings.Count s "/") [ "/home/user"; "/home/user/x"; "/"; "" ; "a//b" ]
  = [ 2; 3; 1; 0; 2 ].
Proof. reflexivity. Qed.

(** The tests of the package, on the empty disk with the codec of the
    literals ([true] for the red fish, [false] for the blue one).
    Permissions are not part of the file system here, so the test of a
    directory that cannot be made is run with a regular file in the way. *)
Example TestNew :
  (scribble.New "/home/fakeuser" emptyFS).2 = (None, Some unsafeLocation) ∧
  (scribble.New "/tmp/db" tmpFileFS).2.2 ≠ None ∧
  (scribble.New "/tmp/deep/school" emptyFS).2 = (Some schoolDriver, None) ∧
  os.Stat "/tmp/deep/school" school = inl (os.mkFileInfo "school" true) ∧
  scribble.New "/tmp/deep/school" school = (school, (Some schoolDriver, None)).
Proof. by vm_compute. Qed.

Example TestReadall :
  let d1 := stockedDriver in
  let fs1 := fsAfter (scribble.Write literal.MarshalIndent d1 stocked
                        "fish" "0" literal.true_) stocked in
  let fs2 := fsAfter (scribble.Write literal.MarshalIndent d1 fs1
                        "fish" "1" literal.false_) fs1 in
  scribble.ReadAll d1 fs2 "fish" = scribble.Returns (inl ["true"; "false"; "true"]) d1 fs2 ∧
  scribble.ReadAllMap d1 fs2 "fish"
  = scribble.Returns
      (inl {[ "0" := "true"; "1" := "false"; "redfish" := "true" ]}) d1 fs2.
Proof. by vm_compute. Qed.

Example TestDelete :
  let once := scribble.Delete stockedDriver stocked "fish" "redfish" in
  let d1 := driverAfter once stockedDriver in
  let fs1 := fsAfter once stocked in
  once = scribble.Returns None d1 fs1 ∧
  scribble.Delete d1 fs1 "fish" "redfish" = scribble.Returns None d1 fs1 ∧
  scribble.Read literal.Unmarshal d1 fs1 "fish" "redfish"
  = scribble.Returns
      (inr (os.PathError "stat" "/tmp/deep/school/fish/redfish" os.ENOENT)) d1 fs1 ∧
  scribble.Delete d1 fs1 "" "redfish"
  = scribble.Returns
      (Some (os.errorString "Missing collection - no place to delete record!")) d1 fs1.
Proof. by vm_compute. Qed.

(** * Facts *)

(** ** Strings *)

Lemma append_cons (c : ascii) (a b : string) :
  String c a +:+ b = String c (a +:+ b).
Proof. reflexivity. Qed.

Lemma append_nil_l (b : string) : "" +:+ b = b.
Proof. reflexivity. Qed.

Lemma append_nil_r (s : string) : s +:+ "" = s.
Proof. induction s as [|c s IH]; [done | by rewrite append_cons, IH]. Qed.

Lemma append_assoc (a b c : string) : (a +:+ b) +:+ c = a +:+ b +:+ c.
Proof. induction a as [|x a IH]; [done | by rewrite !append_cons, IH]. Qed.

Lemma append_length (a b : string) :
  String.length (a +:+ b) = String.length a + String.length b.
Proof.
  induction a as [|x a IH]; [done |]. rewrite append_cons. simpl. by rewrite IH.
Qed.

Lemma append_ne_self (a b : string) : b ≠ "" → a +:+ b ≠ a.
Proof.
  intros Hb Heq. apply (f_equal String.length) in Heq.
  rewrite append_length in Heq. destruct b; [done | simpl in Heq; lia].
Qed.

Lemma prefix_app (pre s : string) : String.prefix pre (pre +:+ s) = true.
Proof.
  induction pre as [|c pre IH]; [by destruct s |].
  rewrite append_cons. simpl.
  destruct (Ascii.ascii_dec c c); [done | congruence].
Qed.

Lemma prefix_inv (pre s : string) :
  String.prefix pre s = true → ∃ rest, s = pre +:+ rest.
Proof.
  revert s. induction pre as [|c pre IH]; intros s H; [by exists s |].
  destruct s as [|c' s]; simpl in H; [done |].
  destruct (Ascii.ascii_dec c c') as [-> |]; [| done].
  destruct (IH _ H) as [rest ->]. by exists rest.
Qed.

Lemma Contains_app_r (a b sub : string) :
  strings.Contains b sub = true → strings.Contains (a +:+ b) sub = true.
Proof.
  intros H. induction a as [|c a IH]; [done |].
  rewrite append_cons. simpl. rewrite IH. apply orb_true_r.
Qed.

Lemma prefix_sep_cons (c : ascii) (s : string) :
  String.prefix "/" (String c s) = filepath.isSep c.
Proof.
  change (String.prefix "/" (String c s))
    with (if Ascii.ascii_dec "/"%char c then String.prefix "" s else false).
  unfold filepath.isSep, filepath.Separator.
  destruct (Ascii.ascii_dec "/"%char c) as [Heq | Hne].
  - rewrite bool_decide_eq_true_2 by done. by destruct s.
  - rewrite bool_decide_eq_false_2; [done | congruence].
Qed.

Lemma Contains_sep_cons (c : ascii) (s : string) :
  strings.Contains (String c s) "/" = filepath.isSep c || strings.Contains s "/".
Proof.
  change (strings.Contains (String c s) "/")
    with (String.prefix "/" (String c s) || strings.Contains s "/").
  by rewrite prefix_sep_cons.
Qed.

Lemma Contains_sep_app (a b : string) :
  strings.Contains (a +:+ b) "/" = strings.Contains a "/" || strings.Contains b "/".
Proof.
  induction a as [|c a IH]; [done |].
  change (String c a +:+ b) with (String c (a +:+ b)).
  rewrite !Contains_sep_cons, IH. by rewrite orb_assoc.
Qed.

Lemma sepFree_cons (c : ascii) (s : string) :
  sepFree (String c s) ↔ filepath.isSep c = false ∧ sepFree s.
Proof. unfold sepFree. rewrite Contains_sep_cons. apply orb_false_iff. Qed.

(** ** The elements of a path *)

Lemma split_nonempty (s : string) : filepath.split s ≠ [].
Proof.
  destruct s as [|c s]; simpl; [done |].
  destruct (filepath.isSep c); [done |]. by destruct (filepath.split s).
Qed.

Lemma split_sepFree (s : string) : sepFree s → filepath.split s = [s].
Proof.
  induction s as [|c s IH]; [done |].
  intros [Hc Hs]%sepFree_cons. simpl. by rewrite Hc, (IH Hs).
Qed.

Lemma split_app_sep (a b : string) :
  filepath.split (a +:+ "/" +:+ b) = filepath.split a ++ filepath.split b.
Proof.
  induction a as [|c a IH]; [done |].
  change (String c a +:+ "/" +:+ b) with (String c (a +:+ "/" +:+ b)).
  simpl. rewrite IH. destruct (filepath.isSep c); [done |].
  pose proof (split_nonempty a). by destruct (filepath.split a).
Qed.

Lemma split_elems_sepFree (s : string) : Forall sepFree (filepath.split s).
Proof.
  induction s as [|c s IH]; simpl; [by repeat constructor |].
  destruct (filepath.isSep c) eqn:Hc; [by constructor |].
  destruct IH as [|e es He Hes]; constructor; try done.
  - by apply sepFree_cons.
  - by apply sepFree_cons.
Qed.

Lemma split_Join (l : list string) :
  l ≠ [] → Forall sepFree l → filepath.split (strings.Join l "/") = l.
Proof.
  induction l as [|e l IH]; [done |]. intros _ Hl.
  apply Forall_cons in Hl as [He Hl].
  destruct l as [|e' l]; [by apply split_sepFree |].
  change (strings.Join (e :: e' :: l) "/")
    with (e +:+ "/" +:+ strings.Join (e' :: l) "/").
  rewrite split_app_sep, split_sepFree, IH; done.
Qed.

(** A suffix without separator stays in the last element. *)
Lemma split_app_sepFree (p s : string) :
  sepFree s →
  filepath.split (p +:+ s)
  = removelast (filepath.split p) ++ [List.last (filepath.split p) "" +:+ s].
Proof.
  intros Hs. induction p as [|c p IH]; [by apply split_sepFree |].
  change (String c p +:+ s) with (String c (p +:+ s)).
  simpl. rewrite IH. pose proof (split_nonempty p) as Hne.
  destruct (filepath.isSep c).
  - by destruct (filepath.split p).
  - destruct (filepath.split p) as [|e [|e' es]]; done.
Qed.

Lemma rooted_app (a b : string) : a ≠ "" → filepath.rooted (a +:+ b) = filepath.rooted a.
Proof. by destruct a. Qed.

Lemma upToLastSep_cons (c : ascii) (rest : string) :
  filepath.upToLastSep (String c rest)
  = if strings.Contains (String c rest) "/"
    then String c (filepath.upToLastSep rest) else "".
Proof. reflexivity. Qed.

Lemma upToLastSep_app (p s : string) :
  sepFree s → filepath.upToLastSep (p +:+ s) = filepath.upToLastSep p.
Proof.
  intros Hs. induction p as [|c p IH].
  - rewrite append_nil_l. destruct s as [|c s]; [done |].
    by rewrite upToLastSep_cons, Hs.
  - rewrite append_cons, !upToLastSep_cons, <- append_cons.
    by rewrite Contains_sep_app, Hs, orb_false_r, IH.
Qed.

(** ** The loop of [Clean] *)

Lemma simpleName_sepFree (x : string) : simpleName x → sepFree x.
Proof. by intros (_ & _ & _ & H). Qed.

Lemma sepFree_not_rooted (x : string) : sepFree x → filepath.rooted x = false.
Proof. destruct x as [|c x]; [done |]. by intros [Hc _]%sepFree_cons. Qed.

Lemma cleanStep_skip (R : bool) (out : list string) (x : string) :
  x = "" ∨ x = "." → filepath.cleanStep R out x = out.
Proof. by intros [-> | ->]. Qed.

Lemma cleanStep_name (R : bool) (out : list string) (x : string) :
  x ≠ "" → x ≠ "." → x ≠ ".." → filepath.cleanStep R out x = x :: out.
Proof.
  intros H1 H2 H3. unfold filepath.cleanStep.
  by rewrite !bool_decide_eq_false_2.
Qed.

Lemma cleanStep_dotdot_pop (R : bool) (x : string) (out : list string) :
  x ≠ ".." → filepath.cleanStep R (x :: out) ".." = out.
Proof.
  intros H. unfold filepath.cleanStep. simpl.
  by rewrite bool_decide_eq_false_2.
Qed.

Lemma fold_cleanStep_skip (R : bool) (pre : list string) (out : list string) :
  Forall (λ x, x = "" ∨ x = ".") pre →
  fold_left (filepath.cleanStep R) pre out = out.
Proof.
  induction 1 as [|x pre Hx _ IH]; [done |].
  simpl. by rewrite cleanStep_skip.
Qed.

Lemma cleaned_head_dotdot (R : bool) (out : list string) :
  cleaned R (".." :: out) → R = false.
Proof. inversion 1 as [|x o Hx| |]; [| done..]. by destruct Hx as (_ & _ & ? & _). Qed.

Lemma cleaned_tail (R : bool) (x : string) (out : list string) :
  cleaned R (x :: out) → x ≠ ".." → simpleName x ∧ cleaned R out.
Proof. by inversion 1. Qed.

Lemma cleanStep_cleaned (R : bool) (out : list string) (x : string) :
  sepFree x → cleaned R out → cleaned R (filepath.cleanStep R out x).
Proof.
  intros Hx Hout.
  destruct (decide (x = "")) as [-> |]; [done |].
  destruct (decide (x = ".")) as [-> |]; [done |].
  destruct (decide (x = "..")) as [-> |].
  - destruct out as [|last out'].
    + destruct R eqn:HR; [constructor | by apply cleaned_dotdot_first].
    + destruct (decide (last = "..")) as [-> | Hne].
      * pose proof (cleaned_head_dotdot _ _ Hout). by apply cleaned_dotdot.
      * rewrite cleanStep_dotdot_pop by done. by apply cleaned_tail in Hout as [_ ?].
  - rewrite cleanStep_name by done. by apply cleaned_name.
Qed.

Lemma fold_cleaned (R : bool) (l out : list string) :
  Forall sepFree l → cleaned R out →
  cleaned R (fold_left (filepath.cleanStep R) l out).
Proof.
  intros Hl. revert out. induction Hl as [|x l Hx _ IH]; intros out Hout; [done |].
  simpl. by apply IH, cleanStep_cleaned.
Qed.

Lemma cleaned_split (R : bool) (p : string) :
  cleaned R (fold_left (filepath.cleanStep R) (filepath.split p) []).
Proof. apply fold_cleaned; [apply split_elems_sepFree | constructor]. Qed.

Lemma cleaned_sepFree (R : bool) (out : list string) :
  cleaned R out → Forall sepFree out.
Proof.
  induction 1; repeat constructor; try done.
  - by apply simpleName_sepFree.
  - by inversion IHcleaned.
Qed.

(** Running the loop over its own output writes the same output. *)
Lemma cleaned_replay (R : bool) (out : list string) :
  cleaned R out → fold_left (filepath.cleanStep R) (rev out) [] = out.
Proof.
  induction 1 as [|x out Hx _ IH|HR|out HR _ IH]; [done | | by subst |].
  - simpl. rewrite fold_left_app, IH. simpl.
    destruct Hx as (? & ? & ? & _). by rewrite cleanStep_name.
  - change (rev (".." :: ".." :: out)) with (rev (".." :: out) ++ [".."]).
    by rewrite fold_left_app, IH.
Qed.

(** The output for a relative path, resolved from any directory, leads
    where the path leads. *)
Lemma replay_rooted (l st : list string) :
  Forall sepFree l →
  fold_left (filepath.cleanStep true)
    (rev (fold_left (filepath.cleanStep false) l [])) st
  = fold_left (filepath.cleanStep true) l st.
Proof.
  induction l as [|c l IH] using rev_ind; [done |].
  intros [Hl Hc]%Forall_app. apply Forall_singleton in Hc.
  rewrite !fold_left_app. simpl. rewrite <- (IH Hl).
  pose proof (fold_cleaned false l [] Hl (cleaned_nil _)) as Hcl.
  set (S' := fold_left (filepath.cleanStep false) l []) in *.
  destruct (decide (c = "")) as [-> |]; [done |].
  destruct (decide (c = ".")) as [-> |]; [done |].
  destruct (decide (c = "..")) as [-> |].
  - destruct S' as [|last S'']; [done |].
    destruct (decide (last = "..")) as [-> | Hne].
    + change (filepath.cleanStep false (".." :: S'') "..") with (".." :: ".." :: S'').
      change (rev (".." :: ".." :: S'')) with (rev (".." :: S'') ++ [".."]).
      by rewrite fold_left_app.
    + rewrite cleanStep_dotdot_pop by done.
      apply cleaned_tail in Hcl as [(? & ? & ? & _) _]; [| done].
      simpl. rewrite fold_left_app. simpl.
      rewrite (cleanStep_name true _ last) by done.
      by rewrite cleanStep_dotdot_pop.
  - rewrite !(cleanStep_name _ _ c) by done.
    simpl. rewrite fold_left_app. simpl. by rewrite cleanStep_name.
Qed.

(** ** [Clean] and [Join] *)

Lemma Clean_unfold (p : string) :
  p ≠ "" →
  filepath.Clean p
  = let out := rev (fold_left (filepath.cleanStep (filepath.rooted p))
                      (filepath.split p) []) in
    if filepath.rooted p then "/" +:+ strings.Join out "/"
    else match out with [] => "." | _ => strings.Join out "/" end.
Proof. by destruct p. Qed.

Lemma cleaned_nonempty_elems (R : bool) (out : list string) :
  cleaned R out → Forall (λ x, x ≠ "") out.
Proof.
  induction 1 as [|x out Hx _ IH| |out _ _ IH]; repeat constructor; try done.
  - by destruct Hx.
  - by inversion IH.
Qed.

Lemma Join_nonempty (x : string) (l : list string) :
  x ≠ "" → strings.Join (x :: l) "/" ≠ "".
Proof. destruct l; [done |]. by destruct x. Qed.

Lemma Join_rooted (x : string) (l : list string) :
  x ≠ "" → filepath.rooted (strings.Join (x :: l) "/") = filepath.rooted x.
Proof. destruct l; [done |]. by destruct x. Qed.

Lemma Clean_nonempty (p : string) : filepath.Clean p ≠ "".
Proof.
  destruct (decide (p = "")) as [-> | Hp]; [done |].
  rewrite Clean_unfold by done. cbv zeta.
  pose proof (cleaned_split (filepath.rooted p) p) as Hcl.
  apply cleaned_nonempty_elems, Forall_rev in Hcl.
  destruct (filepath.rooted p); [done |].
  destruct (rev _) as [|x out]; [done |].
  apply Forall_cons in Hcl as [Hx _]. by apply Join_nonempty.
Qed.

(** The elements of a cleaned path are the output of the loop, behind
    elements the loop drops. *)
Lemma split_Clean (p : string) :
  p ≠ "" →
  ∃ pre, Forall (λ x, x = "" ∨ x = ".") pre ∧
    filepath.split (filepath.Clean p)
    = pre ++ rev (fold_left (filepath.cleanStep (filepath.rooted p))
                    (filepath.split p) []).
Proof.
  intros Hp. rewrite Clean_unfold by done. cbv zeta.
  pose proof (cleaned_split (filepath.rooted p) p) as Hcl.
  apply cleaned_sepFree, Forall_rev in Hcl.
  destruct (filepath.rooted p).
  - rewrite <- (append_nil_l ("/" +:+ _)), split_app_sep.
    destruct (rev _) as [|x out] eqn:Hout.
    + exists [""; ""]. split; [repeat constructor; by left | done].
    + exists [""]. split; [repeat constructor; by left |].
      by rewrite split_Join.
  - destruct (rev _) as [|x out] eqn:Hout.
    + exists ["."]. split; [repeat constructor; by right | done].
    + exists []. split; [constructor |]. by rewrite split_Join.
Qed.

Lemma rooted_Clean (p : string) :
  filepath.rooted (filepath.Clean p) = filepath.rooted p.
Proof.
  destruct (decide (p = "")) as [-> | Hp]; [done |].
  rewrite Clean_unfold by done. cbv zeta.
  pose proof (cleaned_split (filepath.rooted p) p) as Hcl.
  pose proof (Forall_rev (cleaned_nonempty_elems _ _ Hcl)) as Hne.
  apply cleaned_sepFree, Forall_rev in Hcl.
  destruct (filepath.rooted p); [done |].
  destruct (rev _) as [|x out]; [done |].
  apply Forall_cons in Hcl as [Hx _]. apply Forall_cons in Hne as [Hx' _].
  rewrite Join_rooted by done. by apply sepFree_not_rooted.
Qed.

(** [Clean] is idempotent on the output of the loop. *)
Lemma fold_split_Clean (p : string) :
  p ≠ "" →
  fold_left (filepath.cleanStep (filepath.rooted p))
    (filepath.split (filepath.Clean p)) []
  = fold_left (filepath.cleanStep (filepath.rooted p)) (filepath.split p) [].
Proof.
  intros Hp. destruct (split_Clean p Hp) as (pre & Hpre & ->).
  rewrite fold_left_app, (fold_cleanStep_skip _ pre) by done.
  apply cleaned_replay, cleaned_split.
Qed.

Lemma fold_split_Clean_from (p : string) (st : list string) :
  p ≠ "" → filepath.rooted p = false →
  fold_left (filepath.cleanStep true) (filepath.split (filepath.Clean p)) st
  = fold_left (filepath.cleanStep true) (filepath.split p) st.
Proof.
  intros Hp Hr. destruct (split_Clean p Hp) as (pre & Hpre & ->).
  rewrite fold_left_app, (fold_cleanStep_skip _ pre), Hr by done.
  apply replay_rooted, split_elems_sepFree.
Qed.

Lemma Clean_Clean (p : string) : filepath.Clean (filepath.Clean p) = filepath.Clean p.
Proof.
  destruct (decide (p = "")) as [-> | Hp]; [done |].
  rewrite (Clean_unfold (filepath.Clean p)) by apply Clean_nonempty.
  rewrite rooted_Clean, fold_split_Clean by done.
  by rewrite <- Clean_unfold.
Qed.

Lemma app_sep_nonempty (a b : string) : a +:+ "/" +:+ b ≠ "".
Proof. by destruct a. Qed.

(** Cleaning the first part of a path first changes nothing. *)
Lemma Clean_app_l (x r : string) :
  x ≠ "" →
  filepath.Clean (filepath.Clean x +:+ "/" +:+ r) = filepath.Clean (x +:+ "/" +:+ r).
Proof.
  intros Hx. pose proof (Clean_nonempty x) as Hc.
  rewrite (Clean_unfold (filepath.Clean x +:+ "/" +:+ r)),
    (Clean_unfold (x +:+ "/" +:+ r)) by apply app_sep_nonempty.
  rewrite !rooted_app, rooted_Clean, !split_app_sep, !fold_left_app by done.
  by rewrite fold_split_Clean.
Qed.

Lemma Clean_simpleName (c : string) : simpleName c → filepath.Clean c = c.
Proof.
  intros (H1 & H2 & H3 & H4). rewrite Clean_unfold by done.
  rewrite sepFree_not_rooted, split_sepFree by done. simpl.
  by rewrite cleanStep_name.
Qed.

Lemma Join_cons (a : string) (l : list string) :
  a ≠ "" → filepath.Join (a :: l) = filepath.Clean (strings.Join (a :: l) "/").
Proof. intros Ha. simpl. by rewrite bool_decide_eq_false_2. Qed.

Lemma Join_nil_cons (l : list string) : filepath.Join ("" :: l) = filepath.Join l.
Proof. done. Qed.

Lemma Join_Join (a c r : string) :
  c ≠ "" → r ≠ "" →
  filepath.Join [filepath.Join [a; c]; r] = filepath.Join [a; c; r].
Proof.
  intros Hc Hr. destruct (decide (a = "")) as [-> | Ha].
  - rewrite !Join_nil_cons, (Join_cons c [r]), (Join_cons c []) by done.
    rewrite Join_cons by apply Clean_nonempty.
    by apply (Clean_app_l c r).
  - rewrite (Join_cons a [c; r]), (Join_cons a [c]) by done.
    rewrite Join_cons by apply Clean_nonempty.
    change (strings.Join [a; c; r] "/") with (a +:+ "/" +:+ c +:+ "/" +:+ r).
    change (strings.Join [a; c] "/") with (a +:+ "/" +:+ c).
    change (strings.Join [filepath.Clean (a +:+ "/" +:+ c); r] "/")
      with (filepath.Clean (a +:+ "/" +:+ c) +:+ "/" +:+ r).
    rewrite Clean_app_l by by destruct a.
    by rewrite !append_assoc.
Qed.

(** ** Name resolution *)

Lemma resolve_Clean (fs : os.FS) (p : string) :
  os.resolve fs (filepath.Clean p) = os.resolve fs p.
Proof.
  destruct (decide (p = "")) as [-> | Hp]; [done |].
  unfold os.resolve. rewrite rooted_Clean. f_equal.
  destruct (filepath.rooted p) eqn:Hr.
  - rewrite <- Hr. by apply fold_split_Clean.
  - by apply fold_split_Clean_from.
Qed.

Lemma resolve_app (fs : os.FS) (a b : string) :
  a ≠ "" →
  os.resolve fs (a +:+ "/" +:+ b)
  = rev (fold_left (filepath.cleanStep true) (filepath.split b) (rev (os.resolve fs a))).
Proof.
  intros Ha. unfold os.resolve.
  by rewrite rooted_app, split_app_sep, fold_left_app, rev_involutive.
Qed.

Lemma resolve_empty (fs : os.FS) : os.resolve fs "" = os.cwd fs.
Proof. unfold os.resolve. simpl. apply rev_involutive. Qed.


(** Joining with a name of one element leads one step down. *)
Lemma resolve_Join_name (fs : os.FS) (a c : string) :
  simpleName c →
  os.resolve fs (filepath.Join [a; c]) = os.resolve fs a ++ [c].
Proof.
  intros Hc. pose proof Hc as (H1 & H2 & H3 & H4).
  destruct (decide (a = "")) as [-> | Ha].
  - rewrite Join_nil_cons, Join_cons, resolve_Clean, resolve_empty by done.
    unfold os.resolve. rewrite sepFree_not_rooted, split_sepFree by done.
    simpl. rewrite cleanStep_name by done. simpl. by rewrite rev_involutive.
  - rewrite Join_cons, resolve_Clean by done.
    change (strings.Join [a; c] "/") with (a +:+ "/" +:+ c).
    rewrite resolve_app, split_sepFree by done. simpl.
    rewrite cleanStep_name by done. simpl. by rewrite rev_involutive.
Qed.

Lemma tmp_suffix_name (x : string) :
  let y := x +:+ ".tmp" in y ≠ "" ∧ y ≠ "." ∧ y ≠ ".." ∧ y ≠ x.
Proof.
  assert (String.length (x +:+ ".tmp") = String.length x + 4) as Hlen
    by by rewrite append_length.
  cbv zeta. split_and!; intros Heq; rewrite Heq in Hlen; simpl in Hlen; lia.
Qed.

(** The temporary path and the final path are two places. *)
Lemma resolve_tmp_ne (fs : os.FS) (p : string) :
  os.resolve fs (p +:+ ".tmp") ≠ os.resolve fs p.
Proof.
  unfold os.resolve. intros Heq%(f_equal (@rev string)).
  rewrite !rev_involutive in Heq.
  assert (filepath.rooted (p +:+ ".tmp") = filepath.rooted p) as Hr by by destruct p.
  rewrite Hr, split_app_sepFree in Heq by done.
  pose proof (app_removelast_last "" (split_nonempty p)) as Hsp.
  set (init := removelast (filepath.split p)) in *.
  set (x := List.last (filepath.split p) "") in *.
  rewrite Hsp, !fold_left_app in Heq. simpl in Heq.
  set (st := fold_left _ init _) in Heq.
  destruct (tmp_suffix_name x) as (H1 & H2 & H3 & H4).
  rewrite (cleanStep_name _ _ (x +:+ ".tmp")) in Heq by done.
  apply (f_equal length) in Heq as Hlen. simpl in Hlen.
  destruct (decide (x = "" ∨ x = ".")) as [Hx |].
  { rewrite cleanStep_skip in Hlen by done. lia. }
  destruct (decide (x = "..")) as [Hx |].
  - rewrite Hx in *. destruct st as [|last st']; [done |].
    destruct (decide (last = "..")) as [-> | Hne].
    + by injection Heq.
    + rewrite cleanStep_dotdot_pop in Hlen by done. simpl in Hlen; lia.
  - rewrite cleanStep_name in Heq by tauto. by injection Heq.
Qed.

Lemma split_Join_name (a r : string) :
  simpleName r → ∃ init, filepath.split (filepath.Join [a; r]) = init ++ [r].
Proof.
  intros Hr. pose proof Hr as (H1 & H2 & H3 & H4).
  destruct (decide (a = "")) as [-> | Ha].
  - exists []. rewrite Join_nil_cons, Join_cons by done.
    change (strings.Join [r] "/") with r.
    by rewrite Clean_simpleName, split_sepFree.
  - rewrite Join_cons by done.
    change (strings.Join [a; r] "/") with (a +:+ "/" +:+ r).
    destruct (split_Clean (a +:+ "/" +:+ r)) as (pre & _ & ->);
      [apply app_sep_nonempty |].
    rewrite split_app_sep, (split_sepFree r), fold_left_app by done. simpl.
    rewrite cleanStep_name by done. simpl. rewrite app_assoc. by eexists.
Qed.

(** For a resource of one element the temporary file is called
    [<resource>.tmp] and lies next to the final file. *)
Lemma resolve_tmp_name (fs : os.FS) (a r : string) :
  simpleName r →
  os.resolve fs (filepath.Join [a; r] +:+ ".tmp") = os.resolve fs a ++ [r +:+ ".tmp"].
Proof.
  intros Hr. destruct (split_Join_name a r Hr) as [init Hs].
  pose proof (resolve_Join_name fs a r Hr) as Hfinal.
  destruct Hr as (H1 & H2 & H3 & H4).
  assert (filepath.Join [a; r] ≠ "") as Hne.
  { destruct (decide (a = "")) as [-> | Ha].
    - rewrite Join_nil_cons, Join_cons by done. apply Clean_nonempty.
    - rewrite Join_cons by done. apply Clean_nonempty. }
  unfold os.resolve in *. rewrite rooted_app, split_app_sepFree by done.
  rewrite Hs in *. rewrite removelast_last, last_last.
  rewrite fold_left_app in *. simpl in *.
  destruct (tmp_suffix_name r) as (T1 & T2 & T3 & _).
  rewrite cleanStep_name in * by done. simpl in *.
  apply app_inj_tail in Hfinal as [-> _]. done.
Qed.

(** The temporary path lies in the directory of the final path. *)
Lemma Dir_tmp (p : string) : filepath.Dir (p +:+ ".tmp") = filepath.Dir p.
Proof. unfold filepath.Dir. by rewrite upToLastSep_app. Qed.

(** ** The file system *)

Lemma walk_dirs (fs : os.FS) (cur rest : list string) :
  (∀ q, q `prefix_of` rest → q ≠ rest → os.nodeAt fs (cur ++ q) = Some os.Dir) →
  os.walk fs cur rest
  = match os.nodeAt fs (cur ++ rest) with
    | Some n => inr n
    | None => inl os.ENOENT
    end.
Proof.
  revert cur. induction rest as [|x rest IH]; intros cur H; simpl.
  - by rewrite app_nil_r.
  - specialize (H [] (prefix_nil _)) as H0. rewrite app_nil_r in H0.
    rewrite H0 by done. rewrite IH; [by rewrite <- app_assoc |].
    intros q Hq Hne. rewrite <- app_assoc. simpl.
    apply H; [by apply prefix_cons | by intros [= ?]].
Qed.

Lemma walk_inr (fs : os.FS) (cur rest : list string) (n : os.node) :
  os.walk fs cur rest = inr n →
  os.nodeAt fs (cur ++ rest) = Some n ∧
  ∀ q, q `prefix_of` rest → q ≠ rest → os.nodeAt fs (cur ++ q) = Some os.Dir.
Proof.
  revert cur. induction rest as [|x rest IH]; intros cur H; simpl in H.
  - rewrite app_nil_r. destruct (os.nodeAt fs cur) eqn:Hn; [| done].
    split; [congruence |]. by intros q ->%prefix_nil_inv.
  - destruct (os.nodeAt fs cur) as [[|i]|] eqn:Hn; [| done..].
    destruct (IH _ H) as [H1 H2]. rewrite <- app_assoc in H1. split; [done |].
    intros [|y q] Hq Hne; [by rewrite app_nil_r |].
    pose proof (prefix_cons_inv_1 _ _ _ _ Hq) as ->.
    apply prefix_cons_inv_2 in Hq.
    specialize (H2 q Hq). rewrite <- app_assoc in H2. apply H2. congruence.
Qed.

Lemma walk_ext (fs fs' : os.FS) (cur rest : list string) :
  (∀ q, q `prefix_of` rest → os.nodeAt fs (cur ++ q) = os.nodeAt fs' (cur ++ q)) →
  os.walk fs cur rest = os.walk fs' cur rest.
Proof.
  revert cur. induction rest as [|x rest IH]; intros cur H; simpl;
    specialize (H [] (prefix_nil _)) as H0; rewrite app_nil_r in H0; rewrite H0.
  - done.
  - destruct (os.nodeAt fs' cur) as [[|i]|]; [| done..].
    apply IH. intros q Hq. rewrite <- !app_assoc. by apply H, prefix_cons.
Qed.

Lemma lookupPath_inr (fs : os.FS) (p : list string) (n : os.node) :
  os.lookupPath fs p = inr n ↔
  os.nodeAt fs p = Some n ∧
  ∀ q, q `prefix_of` p → q ≠ p → os.nodeAt fs q = Some os.Dir.
Proof.
  split.
  - apply (walk_inr fs []).
  - intros [H1 H2]. unfold os.lookupPath. rewrite walk_dirs by done.
    simpl. by rewrite H1.
Qed.

Lemma lookupPath_ext (fs fs' : os.FS) (p : list string) :
  (∀ q, q `prefix_of` p → os.nodeAt fs q = os.nodeAt fs' q) →
  os.lookupPath fs p = os.lookupPath fs' p.
Proof. apply (walk_ext fs fs' []). Qed.

Lemma nodeAt_names (fs : os.FS) (p : list string) :
  p ≠ [] → os.nodeAt fs p = os.names fs !! p.
Proof. by destruct p. Qed.

Lemma prefix_parent (q p : list string) :
  q `prefix_of` p → q ≠ p → q `prefix_of` os.parent p.
Proof.
  unfold os.parent. intros [k ->] Hne.
  destruct k as [|x k] using rev_ind; [by rewrite app_nil_r in Hne |].
  rewrite app_assoc, removelast_last. by apply prefix_app_r.
Qed.

Lemma parent_prefix (p : list string) : os.parent p `prefix_of` p.
Proof.
  unfold os.parent. destruct p as [|x p] using rev_ind; [done |].
  rewrite removelast_last. by apply prefix_app_r.
Qed.

Lemma parent_ne (p : list string) : p ≠ [] → os.parent p ≠ p.
Proof.
  unfold os.parent. destruct p as [|x p] using rev_ind; [done |].
  intros _. rewrite removelast_last. intros H%(f_equal length).
  rewrite length_app in H. simpl in H. lia.
Qed.

Lemma not_prefix_parent (p : list string) :
  p ≠ [] → ¬ p `prefix_of` os.parent p.
Proof.
  intros Hp Hpre. apply (parent_ne p Hp). symmetry.
  by apply prefix_length_eq; [| apply prefix_length, parent_prefix].
Qed.

(** A name in a directory that can be reached can be reached. *)
Lemma lookupPath_child (fs : os.FS) (p : list string) (n : os.node) :
  p ≠ [] → os.lookupPath fs (os.parent p) = inr os.Dir →
  os.names fs !! p = Some n → os.lookupPath fs p = inr n.
Proof.
  intros Hp [Hd Hq]%lookupPath_inr Hn. apply lookupPath_inr.
  split; [by rewrite nodeAt_names |].
  intros q Hpre Hne. apply prefix_parent in Hpre; [| done].
  destruct (decide (q = os.parent p)) as [-> |]; [done | by apply Hq].
Qed.

(** *** [MkdirAll] *)

Lemma mkdirFrom_grows (tree tree' : gmap (list string) os.node)
    (cur rest : list string) (e : option (list string)) :
  os.mkdirFrom tree cur rest = (tree', e) →
  ∀ k, tree' !! k = tree !! k ∨ (tree !! k = None ∧ tree' !! k = Some os.Dir).
Proof.
  revert tree cur. induction rest as [|x rest IH]; intros tree cur H k; simpl in H.
  - left. congruence.
  - destruct (tree !! (cur ++ [x])) as [[|i]|] eqn:Hx.
    + by eapply IH.
    + left. congruence.
    + destruct (IH _ _ H k) as [Hk | [Hk1 Hk2]].
      * destruct (decide (k = cur ++ [x])) as [-> |].
        -- right. by rewrite Hk, lookup_insert_eq.
        -- left. by rewrite Hk, lookup_insert_ne.
      * right. split; [| done].
        destruct (decide (k = cur ++ [x])) as [-> |]; [done |].
        by rewrite lookup_insert_ne in Hk1.
Qed.

Lemma mkdirFrom_fails (tree tree' : gmap (list string) os.node)
    (cur rest : list string) (e : list string) :
  os.mkdirFrom tree cur rest = (tree', Some e) →
  ∃ q i, q `prefix_of` rest ∧ q ≠ [] ∧ tree' !! (cur ++ q) = Some (os.Reg i).
Proof.
  revert tree cur. induction rest as [|x rest IH]; intros tree cur H; simpl in H;
    [done |].
  destruct (tree !! (cur ++ [x])) as [[|i]|] eqn:Hx.
  - destruct (IH _ _ H) as (q & i & Hq & Hne & Hi).
    exists (x :: q), i. split_and!; [by apply prefix_cons | done |].
    by rewrite <- app_assoc in Hi.
  - injection H as <- <-. exists [x], i. split_and!; [| done..].
    apply prefix_cons, prefix_nil.
  - destruct (IH _ _ H) as (q & i & Hq & Hne & Hi).
    exists (x :: q), i. split_and!; [by apply prefix_cons | done |].
    by rewrite <- app_assoc in Hi.
Qed.

Lemma MkdirAll_frame (name : string) (fs fs' : os.FS) (e : option os.error) :
  os.MkdirAll name fs = (fs', e) →
  os.cwd fs' = os.cwd fs ∧ os.inodes fs' = os.inodes fs ∧ os.nextIno fs' = os.nextIno fs ∧
  ∀ k, os.names fs' !! k = os.names fs !! k
       ∨ (os.names fs !! k = None ∧ os.names fs' !! k = Some os.Dir).
Proof.
  unfold os.MkdirAll. destruct (os.mkdirFrom _ _ _) as [tree e'] eqn:Hm.
  intros [= <- _]. split_and!; [done.. |]. by eapply mkdirFrom_grows.
Qed.

(** When [MkdirAll] fails the directory was not made. *)
Lemma MkdirAll_fails (name : string) (fs fs' : os.FS) (e : os.error) :
  os.MkdirAll name fs = (fs', Some e) →
  os.lookupPath fs' (os.resolve fs' name) ≠ inr os.Dir.
Proof.
  unfold os.MkdirAll. destruct (os.mkdirFrom _ _ _) as [tree [e'|]] eqn:Hm; [| done].
  intros [= <- _]. apply mkdirFrom_fails in Hm as (q & i & Hq & Hne & Hi).
  change (os.resolve (os.mkFS _ _ _ _) name) with (os.resolve fs name).
  intros [Hn Hd]%lookupPath_inr.
  destruct (decide (q = os.resolve fs name)) as [Heq | Hneq].
  - rewrite <- Heq, nodeAt_names in Hn by done. simpl in *. congruence.
  - specialize (Hd q Hq Hneq). rewrite nodeAt_names in Hd by done.
    simpl in *. congruence.
Qed.

(** *** [OpenFile], [Write], [WriteFile] *)

Lemma OpenFile_ok (name : string) (fs fs1 : os.FS) (f : os.File) :
  os.OpenFile name fs = (fs1, inl f) →
  let p := os.resolve fs name in
  p ≠ [] ∧ os.lookupPath fs (os.parent p) = inr os.Dir ∧ os.foffset f = 0 ∧
  os.cwd fs1 = os.cwd fs ∧
  os.names fs1 = <[p := os.Reg (os.fino f)]> (os.names fs) ∧
  os.inodes fs1 = <[os.fino f := ""]> (os.inodes fs) ∧
  ((os.names fs !! p = Some (os.Reg (os.fino f)) ∧ os.nextIno fs1 = os.nextIno fs)
   ∨ (os.names fs !! p = None ∧ os.fino f = os.nextIno fs
      ∧ os.nextIno fs1 = S (os.nextIno fs))).
Proof.
  unfold os.OpenFile. cbv zeta.
  destruct (os.resolve fs name) as [|x p] eqn:Hp; [done |].
  destruct (os.lookupPath fs (os.parent (x :: p))) as [e | [|j]] eqn:Hpar; [done | | done].
  destruct (os.names fs !! (x :: p)) as [[|i]|] eqn:Hn; [done | |].
  - intros [= <- <-]. simpl. split_and!; try done.
    + by rewrite insert_id.
    + by left.
  - intros [= <- <-]. simpl. split_and!; try done. by right.
Qed.

Lemma writeAt_empty (data : string) : os.writeAt "" 0 data = data.
Proof.
  unfold os.writeAt. simpl.
  destruct (String.length data); by rewrite !append_nil_l, append_nil_r.
Qed.

Lemma WriteFile_inv (name data : string) (fs fs2 : os.FS) :
  os.WriteFile name data fs = (fs2, None) →
  ∃ f fs1, os.OpenFile name fs = (fs1, inl f) ∧
    os.Write f data fs1 = (fs2, os.mkFile (os.fino f) (os.foffset f + String.length data)).
Proof.
  unfold os.WriteFile. destruct (os.OpenFile name fs) as [fs1 [f | e]] eqn:Ho; [| done].
  unfold os.Close. simpl. intros [= <-]. by exists f, fs1.
Qed.

(** After [WriteFile] the name is bound to a regular file holding the
    data, whole. *)
Lemma WriteFile_ok (name data : string) (fs fs2 : os.FS) :
  os.WriteFile name data fs = (fs2, None) →
  let p := os.resolve fs name in
  ∃ i, os.cwd fs2 = os.cwd fs ∧
    os.names fs2 = <[p := os.Reg i]> (os.names fs) ∧
    os.inodes fs2 = <[i := data]> (os.inodes fs) ∧
    os.lookupPath fs2 p = inr (os.Reg i) ∧
    os.contents fs2 i = data.
Proof.
  intros (f & fs1 & Ho & Hw)%WriteFile_inv. cbv zeta.
  apply OpenFile_ok in Ho as (Hp & Hpar & Hoff & Hcwd & Hnames & Hino & _).
  injection Hw as <-. exists (os.fino f). simpl.
  assert (os.contents fs1 (os.fino f) = "") as ->
    by by (unfold os.contents; rewrite Hino, lookup_insert_eq).
  rewrite Hoff, writeAt_empty, Hino, insert_insert_eq.
  split_and!; [done.. | |].
  - apply lookupPath_child; simpl; [done | | by rewrite Hnames, lookup_insert_eq].
    rewrite <- Hpar. apply lookupPath_ext. intros q Hq.
    destruct q as [|y q]; [done |]. simpl. rewrite Hnames, lookup_insert_ne; [done |].
    intros Heq. rewrite <- Heq in Hq. by apply not_prefix_parent in Hq.
  - unfold os.contents. simpl. by rewrite lookup_insert_eq.
Qed.

(** *** [Rename] of a regular file *)

Lemma Rename_file (oldname newname : string) (fs fs' : os.FS) (i : os.ino) :
  os.lookupPath fs (os.resolve fs oldname) = inr (os.Reg i) →
  os.Rename oldname newname fs = (fs', None) →
  let po := os.resolve fs oldname in
  let pn := os.resolve fs newname in
  po ≠ [] ∧ pn ≠ [] ∧ os.lookupPath fs (os.parent pn) = inr os.Dir ∧
  os.names fs !! pn ≠ Some os.Dir ∧
  fs' = os.mkFS (os.cwd fs) (<[pn := os.Reg i]> (delete po (os.names fs)))
          (os.inodes fs) (os.nextIno fs).
Proof.
  intros Hold. unfold os.Rename. cbv zeta.
  destruct (os.resolve fs oldname) as [|xo po] eqn:Hpo; [done |].
  destruct (os.resolve fs newname) as [|xn pn] eqn:Hpn; [done |].
  rewrite Hold.
  destruct (os.lookupPath fs (os.parent (xn :: pn))) as [e | [|j]]; [done | | done].
  destruct (os.names fs !! (xn :: pn)) as [[|j]|] eqn:Hn; [done | |];
    intros [= <-]; split_and!; done.
Qed.

(** After the rename the new name can be reached and holds the file. *)
Lemma Rename_file_lookup (oldname newname : string) (fs fs' : os.FS) (i : os.ino) :
  os.lookupPath fs (os.resolve fs oldname) = inr (os.Reg i) →
  os.Rename oldname newname fs = (fs', None) →
  os.lookupPath fs' (os.resolve fs' newname) = inr (os.Reg i) ∧
  os.contents fs' i = os.contents fs i.
Proof.
  intros Hold Hren.
  destruct (Rename_file _ _ _ _ _ Hold Hren) as (Hpo & Hpn & Hpar & _ & ->).
  split; [| done].
  change (os.resolve (os.mkFS _ _ _ _) newname) with (os.resolve fs newname).
  set (po := os.resolve fs oldname) in *. set (pn := os.resolve fs newname) in *.
  apply lookupPath_child; simpl; [done | | by rewrite lookup_insert_eq].
  rewrite <- Hpar. apply lookupPath_ext. intros q Hq.
  destruct q as [|y q]; [done |]. simpl.
  apply lookupPath_inr in Hpar as [Hd Hds].
  assert (os.nodeAt fs (y :: q) = Some os.Dir) as Hdir.
  { destruct (decide (y :: q = os.parent pn)) as [-> |]; [done | by apply Hds]. }
  rewrite lookup_insert_ne, lookup_delete_ne; [done | |].
  - intros Heq. apply lookupPath_inr in Hold as [Hreg _].
    rewrite Heq in Hreg. congruence.
  - intros Heq. rewrite <- Heq in Hq. by apply not_prefix_parent in Hq.
Qed.

(** *** [RemoveAll] *)

Lemma RemoveAll_names (name : string) (fs : os.FS) (k : list string) :
  os.names (os.RemoveAll name fs).1 !! k
  = if decide (os.resolve fs name `prefix_of` k) then None else os.names fs !! k.
Proof.
  unfold os.RemoveAll. simpl. case_decide as Hk.
  - apply map_lookup_filter_None. right. intros x _. simpl. tauto.
  - destruct (os.names fs !! k) as [n|] eqn:Hn.
    + by apply map_lookup_filter_Some.
    + apply map_lookup_filter_None. by left.
Qed.


(** What was bound at the removed name is gone; the way to it stays. *)
Lemma RemoveAll_gone (name : string) (fs : os.FS) (n : os.node) :
  os.resolve fs name ≠ [] →
  os.lookupPath fs (os.resolve fs name) = inr n →
  os.lookupPath (os.RemoveAll name fs).1 (os.resolve fs name) = inl os.ENOENT.
Proof.
  intros Hp [Hn Hds]%lookupPath_inr. unfold os.lookupPath.
  rewrite walk_dirs.
  - rewrite app_nil_l, nodeAt_names, RemoveAll_names by done. by rewrite decide_True.
  - intros q Hq Hne. rewrite app_nil_l. destruct q as [|y q]; [done |].
    rewrite nodeAt_names, RemoveAll_names by done.
    rewrite decide_False; [by apply (Hds (y :: q)) |].
    intros Hpre. apply Hne. by apply (anti_symm prefix).
Qed.

(** ** The lock registry *)

Lemma Mutex_unlocked (m : sync.Mutex) : sync.locked m = false → m = sync.zero.
Proof. destruct m as [[]]; by intros. Qed.

Lemma registryFree_fresh (dir : string) :
  registryFree (scribble.mkDriver sync.zero ∅ dir).
Proof. split; [done |]. intros key m. simpl. by rewrite lookup_empty. Qed.

Lemma getOrCreateMutex_free (d : scribble.Driver) (key : string) :
  registryFree d →
  ∃ d', scribble.getOrCreateMutex d key = Some (sync.zero, d') ∧
    registryFree d' ∧ scribble.dir d' = scribble.dir d ∧
    scribble.mutexes d' = <[key := sync.zero]> (scribble.mutexes d).
Proof.
  intros [Hg Hms]. unfold scribble.getOrCreateMutex, sync.Lock. rewrite Hg.
  destruct (scribble.mutexes d !! key) as [m|] eqn:Hk.
  - pose proof (Mutex_unlocked m (Hms _ _ Hk)) as ->.
    eexists. split_and!; [done | | done |]; simpl.
    + by split.
    + symmetry. by apply insert_id.
  - eexists. split_and!; [done | | done..]. split; [done |]. simpl.
    intros k m. destruct (decide (k = key)) as [-> |].
    + rewrite lookup_insert_eq. by intros [= <-].
    + rewrite lookup_insert_ne by done. apply Hms.
Qed.

Lemma getOrCreateMutex_dir (d d' : scribble.Driver) (key : string) (m : sync.Mutex) :
  scribble.getOrCreateMutex d key = Some (m, d') →
  scribble.dir d' = scribble.dir d ∧ scribble.mutexes d' !! key = Some m ∧
  scribble.mutex d' = sync.zero.
Proof.
  unfold scribble.getOrCreateMutex. destruct (sync.Lock _); [| done].
  destruct (scribble.mutexes d !! key) eqn:Hk; intros [= <- <-]; simpl;
    by rewrite ?lookup_insert_eq.
Qed.

(** ** [New] *)

Lemma countFrom_sep_cons (c : ascii) (s : string) :
  strings.countFrom 0 (String c s) "/"
  = (if filepath.isSep c then 1 else 0) + strings.countFrom 0 s "/".
Proof.
  change (strings.countFrom 0 (String c s) "/")
    with (if String.prefix "/" (String c s)
          then S (strings.countFrom 0 s "/") else strings.countFrom 0 s "/").
  rewrite prefix_sep_cons. by destruct (filepath.isSep c).
Qed.

Lemma Count_sep_app (a b : string) :
  strings.Count (a +:+ b) "/" = strings.Count a "/" + strings.Count b "/".
Proof.
  unfold strings.Count. induction a as [|c a IH]; [done |].
  rewrite append_cons, !countFrom_sep_cons, IH. lia.
Qed.

Lemma Count_sep_zero (s : string) : strings.Count s "/" = 0 ↔ sepFree s.
Proof.
  unfold strings.Count. induction s as [|c s IH]; [done |].
  rewrite countFrom_sep_cons, sepFree_cons, <- IH.
  destruct (filepath.isSep c); split; try done; try lia; by intros [_ ->].
Qed.

Lemma unsafeRoot_spec (p : string) :
  scribble.unsafeRoot p = true ↔ refusedRoot p.
Proof.
  unfold scribble.unsafeRoot, strings.HasPrefix, refusedRoot.
  rewrite !orb_true_iff, andb_true_iff, !bool_decide_eq_true, Nat.leb_le.
  assert ((String.prefix "/home/" p = true ∧ strings.Count p "/" ≤ 2)
          ↔ ∃ name, p = "/home/" +:+ name ∧ sepFree name) as ->; [| tauto].
  split.
  - intros [[name ->]%prefix_inv Hc]. exists name. split; [done |].
    rewrite Count_sep_app in Hc. apply Count_sep_zero.
    change (strings.Count "/home/" "/") with 2 in Hc. lia.
  - intros (name & -> & Hs). split; [apply prefix_app |].
    rewrite Count_sep_app. apply Count_sep_zero in Hs. rewrite Hs. by vm_compute.
Qed.

Lemma New_unsafe (dir : string) (fs : os.FS) :
  scribble.unsafeRoot (filepath.Clean dir) = true →
  scribble.New dir fs = (fs, (None, Some unsafeLocation)).
Proof. intros H. unfold scribble.New. cbv zeta. by rewrite H. Qed.

Lemma New_safe (dir : string) (fs : os.FS) :
  scribble.unsafeRoot (filepath.Clean dir) = false →
  scribble.New dir fs
  = match os.Stat (filepath.Clean dir) fs with
    | inl _ => (fs, (Some (scribble.mkDriver sync.zero ∅ (filepath.Clean dir)), None))
    | inr _ =>
        ((os.MkdirAll (filepath.Clean dir) fs).1,
         (Some (scribble.mkDriver sync.zero ∅ (filepath.Clean dir)),
          (os.MkdirAll (filepath.Clean dir) fs).2))
    end.
Proof.
  intros H. unfold scribble.New. cbv zeta. rewrite H.
  destruct (os.Stat _ _); [done |]. by destruct (os.MkdirAll _ _).
Qed.

(** C3, as amended.  [New] answers the unsafe-location error, with no
    driver and the file system untouched, exactly when the cleaned
    directory is the root ["/"], the drive root ["C:\"], the home shorthand
    ["~"], or one element below [/home] (a name [/home/<name>] with no
    further separator); every other directory, such as [/home/user/x] two
    elements below [/home], is accepted and a driver is returned. *)
Theorem New_rejects_exactly (dir : string) (fs : os.FS) :
  let p := filepath.Clean dir in
  (refusedRoot p ↔ scribble.New dir fs = (fs, (None, Some unsafeLocation)))
  ∧ (¬ refusedRoot p ↔
     ∃ fs' err, scribble.New dir fs
                = (fs', (Some (scribble.mkDriver sync.zero ∅ p), err)))
  ∧ ¬ refusedRoot "/home/user/x" ∧ refusedRoot "/home/user".
Proof.
  cbv zeta. rewrite <- !unsafeRoot_spec.
  destruct (scribble.unsafeRoot (filepath.Clean dir)) eqn:Hu.
  - rewrite (New_unsafe _ _ Hu). split_and!; [done | | done..].
    split; [done |]. by intros (? & ? & [=]).
  - rewrite (New_safe _ _ Hu). split_and!; [| | done..].
    + split; [done |]. by destruct (os.Stat _ _).
    + split; [| done]. intros _. destruct (os.Stat _ _); by eexists _, _.
Qed.

(** C3, as stated, fails: [/home/user/x], two elements below [/home], is
    not refused; a driver is returned and the directories are made. *)
Lemma New_home_user_x_accepted :
  ∃ fs', scribble.New "/home/user/x" emptyFS
         = (fs', (Some (scribble.mkDriver sync.zero ∅ "/home/user/x"), None))
    ∧ os.names fs' !! ["home"; "user"; "x"] = Some os.Dir
    ∧ scribble.New "/home/user/x" emptyFS ≠ (emptyFS, (None, Some unsafeLocation)).
Proof. eexists. split_and!; [by vm_compute | by vm_compute | by vm_compute]. Qed.

Lemma Stat_inl (name : string) (fs : os.FS) (fi : os.FileInfo) :
  os.Stat name fs = inl fi →
  ∃ n, os.lookupPath fs (os.resolve fs name) = inr n ∧
    os.IsDir fi = match n with os.Dir => true | os.Reg _ => false end.
Proof.
  unfold os.Stat. cbv zeta. destruct (os.lookupPath _ _) as [e | n]; [done |].
  intros [= <-]. by exists n.
Qed.

(** C10.  On a directory that passes the safety test [New] always returns
    a driver; when the directory is missing and [MkdirAll] fails, the
    driver comes with the error of [MkdirAll], and the root directory of
    that driver does not exist. *)
Theorem New_returns_driver_with_error (dir : string) (fs : os.FS) :
  scribble.unsafeRoot (filepath.Clean dir) = false →
  let root := filepath.Clean dir in
  let driver := scribble.mkDriver sync.zero ∅ root in
  (scribble.New dir fs).2.1 = Some driver ∧
  ∀ fs' err0 err,
    os.Stat root fs = inr err0 → os.MkdirAll root fs = (fs', Some err) →
    scribble.New dir fs = (fs', (Some driver, Some err)) ∧
    os.lookupPath fs' (os.resolve fs' root) ≠ inr os.Dir.
Proof.
  intros Hsafe. cbv zeta. rewrite (New_safe _ _ Hsafe). split.
  - by destruct (os.Stat _ _).
  - intros fs' err0 err Hstat Hmk. rewrite Hstat, Hmk. split; [done |].
    by eapply MkdirAll_fails.
Qed.

Lemma New_returns_driver_with_error_witness :
  scribble.New "/tmp/db" tmpFileFS
  = (tmpFileFS,
     (Some (scribble.mkDriver sync.zero ∅ "/tmp/db"),
      Some (os.PathError "mkdir" "/tmp" os.ENOTDIR)))
  ∧ os.lookupPath tmpFileFS (os.resolve tmpFileFS "/tmp/db") ≠ inr os.Dir.
Proof.
  refine (proj2 (New_returns_driver_with_error "/tmp/db" tmpFileFS _)
            tmpFileFS (os.PathError "stat" "/tmp/db" os.ENOTDIR) _ _ _);
    by vm_compute.
Defined.

(** ** [Delete] *)

Lemma simpleName_deletable (c : string) : simpleName c → deletable c.
Proof.
  intros Hc. unfold deletable. rewrite (Clean_simpleName c Hc).
  destruct Hc as (? & ? & ? & Hs). split_and!; [done | | done]. by intros ->.
Qed.

Lemma Join_name_dot (c : string) : simpleName c → filepath.Join [c; "."] = c.
Proof.
  intros Hc. pose proof Hc as (H1 & H2 & H3 & H4).
  rewrite Join_cons by done.
  change (strings.Join [c; "."] "/") with (c +:+ "/" +:+ ".").
  rewrite Clean_unfold by apply app_sep_nonempty.
  rewrite rooted_app, sepFree_not_rooted, split_app_sep, split_sepFree by done.
  simpl. rewrite (cleanStep_skip _ _ ".") by by right.
  by rewrite (cleanStep_name _ _ c).
Qed.


Lemma no_such_file (name : string) :
  strings.Contains (os.Error (os.PathError "stat" name os.ENOENT)) "no such file" = true.
Proof.
  unfold os.Error. rewrite <- !append_assoc. by apply Contains_app_r.
Qed.

Lemma Delete_unfold (d : scribble.Driver) (fs : os.FS) (c r : string) :
  deletable c →
  scribble.Delete d fs c r
  = match scribble.getOrCreateMutex d
            (filepath.Join [filepath.Clean c; filepath.Clean r]) with
    | None => scribble.Blocks
    | Some (mutex, d') =>
        match sync.Lock mutex with
        | None => scribble.Blocks
        | Some _ =>
            let dir := filepath.Join [scribble.dir d';
                         filepath.Join [filepath.Clean c; filepath.Clean r]] in
            match scribble.stat dir fs with
            | inr err =>
                if strings.Contains (os.Error err) "no such file"
                then scribble.Returns None d' fs
                else scribble.Returns (Some (os.errorString
                       ("Unable to stat " +:+ dir +:+ " - " +:+ os.Error err +:+ "!"))) d' fs
            | inl fi =>
                if os.IsDir fi || os.IsRegular fi
                then scribble.Returns (os.RemoveAll dir fs).2 d' (os.RemoveAll dir fs).1
                else scribble.Returns None d' fs
            end
        end
    end.
Proof.
  intros (H1 & H2 & H3). unfold scribble.Delete. cbv zeta.
  by rewrite !bool_decide_eq_false_2.
Qed.

Lemma Delete_rejected (d : scribble.Driver) (fs : os.FS) (c r : string) :
  ¬ deletable c →
  scribble.Delete d fs c r
  = scribble.Returns
      (Some (os.errorString "Missing collection - no place to delete record!")) d fs.
Proof.
  intros H. unfold scribble.Delete. cbv zeta.
  destruct (bool_decide _ || bool_decide _ || bool_decide _) eqn:Hb; [done |].
  exfalso. apply H. unfold deletable.
  rewrite !orb_false_iff, !bool_decide_eq_false in Hb. tauto.
Qed.

(** The target is there: it is removed with all below it. *)
Lemma Delete_existing (d : scribble.Driver) (fs : os.FS) (c r : string) (n : os.node) :
  registryFree d → deletable c →
  os.lookupPath fs (os.resolve fs (deleteTarget d c r)) = inr n →
  ∃ d', scribble.Delete d fs c r
        = scribble.Returns None d' (os.RemoveAll (deleteTarget d c r) fs).1
    ∧ registryFree d' ∧ scribble.dir d' = scribble.dir d.
Proof.
  intros Hfree Hc Hn. rewrite Delete_unfold by done.
  destruct (getOrCreateMutex_free d
              (filepath.Join [filepath.Clean c; filepath.Clean r]) Hfree)
    as (d' & -> & Hfree' & Hdir & _).
  change (sync.Lock sync.zero) with (Some (sync.mkMutex true)).
  cbv beta iota zeta. rewrite Hdir. fold (deleteTarget d c r).
  unfold scribble.stat, os.Stat. cbv zeta. rewrite Hn.
  exists d'. split; [| done]. unfold os.IsRegular. by destruct (os.IsDir _).
Qed.




(** When [stat] fails for another reason, here because [fish/redfish] is
    a regular file, [Delete] returns the error. *)
Example Delete_below_a_file :
  scribble.Delete schoolDriver stocked "fish" "redfish/x"
  = scribble.Returns
      (Some (os.errorString
         "Unable to stat /tmp/deep/school/fish/redfish/x - stat /tmp/deep/school/fish/redfish/x: not a directory!"))
      (driverAfter (scribble.Delete schoolDriver stocked "fish" "redfish/x") schoolDriver)
      stocked.
Proof. by vm_compute. Qed.

Lemma ReadAll_missing (d : scribble.Driver) (fs : os.FS) (c : string) (e : os.Errno) :
  c ≠ "" →
  os.lookupPath fs (os.resolve fs (filepath.Join [scribble.dir d; c])) = inl e →
  scribble.ReadAll d fs c
  = scribble.Returns
      (inr (scribble.collectionNotFound (filepath.Join [scribble.dir d; c])
              (os.PathError "stat" (filepath.Join [scribble.dir d; c]) e))) d fs.
Proof.
  intros Hc He. unfold scribble.ReadAll. rewrite bool_decide_eq_false_2 by done.
  cbv zeta. unfold scribble.stat, os.Stat. cbv zeta. by rewrite He.
Qed.

(** C8.  For a collection [c] whose directory exists, [Delete(c, "")]
    returns [nil] and leaves nothing bound at or below the directory of
    the collection, so no resource written under [c] remains, while
    every other name is kept; [ReadAll(c)] then answers that the
    directory does not exist. *)
Theorem Delete_collection (d : scribble.Driver) (fs : os.FS) (c : string) :
  registryFree d → simpleName c →
  let dir := filepath.Join [scribble.dir d; c] in
  os.lookupPath fs (os.resolve fs dir) = inr os.Dir →
  ∃ d' fs',
    scribble.Delete d fs c "" = scribble.Returns None d' fs' ∧
    (∀ k, os.names fs' !! k
          = if decide (os.resolve fs dir `prefix_of` k) then None
            else os.names fs !! k) ∧
    scribble.ReadAll d' fs' c
    = scribble.Returns
        (inr (scribble.collectionNotFound dir (os.PathError "stat" dir os.ENOENT)))
        d' fs'.
Proof.
  intros Hfree Hc dir Hdir.
  assert (deleteTarget d c "" = dir) as Htarget.
  { unfold deleteTarget. change (filepath.Clean "") with ".".
    by rewrite (Clean_simpleName c Hc), Join_name_dot. }
  destruct (Delete_existing d fs c "" os.Dir Hfree (simpleName_deletable c Hc))
    as (d' & Hdel & Hfree' & Hd'); [by rewrite Htarget |].
  rewrite Htarget in Hdel. exists d', (os.RemoveAll dir fs).1.
  split_and!; [done | apply RemoveAll_names |].
  assert (os.resolve fs dir ≠ []) as Hne.
  { unfold dir. rewrite resolve_Join_name by done.
    intros H. symmetry in H. by apply app_cons_not_nil in H. }
  rewrite (ReadAll_missing _ _ _ os.ENOENT); rewrite ?Hd'; [done | by destruct Hc |].
  by apply (RemoveAll_gone dir fs os.Dir).
Qed.


(** ** [Write] and [Read] *)

Lemma noLinks_MkdirAll (name : string) (fs fs' : os.FS) (e : option os.error) :
  os.MkdirAll name fs = (fs', e) → noLinks fs → noLinks fs'.
Proof.
  intros (_ & _ & Hnext & Hnames)%MkdirAll_frame Hfs p q i Hp.
  assert (∀ k j, os.names fs' !! k = Some (os.Reg j) → os.names fs !! k = Some (os.Reg j))
    as Hback.
  { intros k j Hk. destruct (Hnames k) as [<- | [_ Hd]]; [done | congruence]. }
  destruct (Hfs p q i (Hback _ _ Hp)) as [Hlt Hinj]. rewrite Hnext.
  split; [done |]. intros Hq. by apply Hinj, Hback.
Qed.

Lemma fileAt_MkdirAll (name : string) (fs fs' : os.FS) (e : option os.error)
    (p : list string) :
  os.MkdirAll name fs = (fs', e) → fileAt fs' p = fileAt fs p.
Proof.
  intros (_ & Hino & _ & Hnames)%MkdirAll_frame. unfold fileAt, os.contents.
  rewrite Hino. destruct (Hnames p) as [-> | [-> ->]]; done.
Qed.

Lemma noLinks_OpenFile (name : string) (fs fs1 : os.FS) (f : os.File) :
  os.OpenFile name fs = (fs1, inl f) → noLinks fs → noLinks fs1.
Proof.
  intros (_ & _ & _ & _ & Hnames & _ & Hwhich)%OpenFile_ok Hfs.
  destruct Hwhich as [[Hold Hnext] | (Hnew & Hi & Hnext)].
  - rewrite insert_id in Hnames by done. intros p q i.
    rewrite Hnames, Hnext. apply Hfs.
  - intros p q i. rewrite Hnames, Hnext, Hi.
    destruct (decide (p = os.resolve fs name)) as [-> | Hp].
    + rewrite lookup_insert_eq. intros [= <-]. split; [lia |].
      destruct (decide (q = os.resolve fs name)) as [-> | Hq]; [done |].
      rewrite lookup_insert_ne by done. intros Hq'.
      destruct (Hfs q q _ Hq') as [Hlt _]. lia.
    + rewrite lookup_insert_ne by done. intros Hp'.
      destruct (Hfs p q i Hp') as [Hlt Hinj]. split; [lia |].
      destruct (decide (q = os.resolve fs name)) as [-> | Hq].
      * rewrite lookup_insert_eq. intros [= <-]. lia.
      * by rewrite lookup_insert_ne.
Qed.

Lemma noLinks_WriteFile (name data : string) (fs fs' : os.FS) (e : option os.error) :
  os.WriteFile name data fs = (fs', e) → noLinks fs → noLinks fs'.
Proof.
  unfold os.WriteFile. destruct (os.OpenFile name fs) as [fs1 [f | err]] eqn:Ho.
  - intros [= <- _] Hfs. by apply (noLinks_OpenFile _ _ _ _ Ho).
  - unfold os.OpenFile in Ho. cbv zeta in Ho.
    destruct (os.resolve fs name); [by injection Ho as <-; intros [= <-] |].
    destruct (os.lookupPath _ _) as [? | [|?]];
      [by injection Ho as <-; intros [= <-] | | by injection Ho as <-; intros [= <-]].
    destruct (os.names fs !! _) as [[|?]|];
      [by injection Ho as <-; intros [= <-] | done | done].
Qed.

Lemma noLinks_Rename_file (oldname newname : string) (fs fs' : os.FS)
    (i : os.ino) (e : option os.error) :
  os.lookupPath fs (os.resolve fs oldname) = inr (os.Reg i) →
  os.Rename oldname newname fs = (fs', e) → noLinks fs → noLinks fs'.
Proof.
  intros Hold Hren Hfs. destruct e as [err |].
  - assert (fs' = fs) as ->; [| done].
    revert Hren. unfold os.Rename. cbv zeta. rewrite Hold.
    destruct (os.resolve fs oldname); [by intros [= <-] |].
    destruct (os.resolve fs newname); [by intros [= <-] |].
    destruct (os.lookupPath fs (os.parent _)) as [? | [|?]]; [by intros [= <-] | | by intros [= <-]].
    destruct (os.names fs !! _) as [[|?]|]; [by intros [= <-] | done | done].
  - destruct (Rename_file _ _ _ _ _ Hold Hren) as (Hpo & _ & _ & _ & ->).
    apply lookupPath_inr in Hold as [Hreg _]. rewrite nodeAt_names in Hreg by done.
    set (po := os.resolve fs oldname) in *. set (pn := os.resolve fs newname) in *.
    assert (∀ k j, k ≠ pn →
              <[pn := os.Reg i]> (delete po (os.names fs)) !! k = Some (os.Reg j) →
              k ≠ po ∧ os.names fs !! k = Some (os.Reg j)) as Hother.
    { intros k j Hk. rewrite lookup_insert_ne by done.
      destruct (decide (k = po)) as [-> |]; [by rewrite lookup_delete_eq |].
      by rewrite lookup_delete_ne. }
    intros p q j. simpl. destruct (decide (p = pn)) as [-> | Hp].
    + rewrite lookup_insert_eq. intros [= <-].
      split; [by apply (Hfs po po) |].
      destruct (decide (q = pn)) as [-> | Hq]; [done |].
      intros [Hne Hq']%Hother; [| done].
      destruct (Hfs po q _ Hreg) as [_ Hinj]. by specialize (Hinj Hq').
    + intros [Hne Hp']%Hother; [| done].
      destruct (Hfs p q j Hp') as [Hlt Hinj]. split; [done |].
      destruct (decide (q = pn)) as [-> | Hq].
      * rewrite lookup_insert_eq. intros [= <-].
        destruct (Hfs p po _ Hp') as [_ Hinj']. by specialize (Hinj' Hreg).
      * intros [_ Hq']%Hother; [| done]. by apply Hinj.
Qed.

Lemma noLinks_RemoveAll (name : string) (fs : os.FS) :
  noLinks fs → noLinks (os.RemoveAll name fs).1.
Proof.
  intros Hfs p q i. rewrite !RemoveAll_names.
  case_decide; [done |]. intros Hp. destruct (Hfs p q i Hp) as [Hlt Hinj].
  split; [done |]. by case_decide.
Qed.

(** Writing through an open file changes the bytes of no other file. *)
Lemma fileAt_other_inode (fs fs' : os.FS) (p : list string) (i : os.ino) (data : string) :
  os.names fs' !! p = os.names fs !! p →
  os.inodes fs' = <[i := data]> (os.inodes fs) →
  os.names fs !! p ≠ Some (os.Reg i) →
  fileAt fs' p = fileAt fs p.
Proof.
  intros Hn Hi Hne. unfold fileAt, os.contents. rewrite Hn, Hi.
  destruct (os.names fs !! p) as [[|j]|]; [done | | done].
  rewrite lookup_insert_ne; [done | congruence].
Qed.

Section codec.

Context {Value : Type}.
Variable MarshalIndent : Value → string → string → string + os.error.
Variable Unmarshal : string → Value + os.error.

Lemma Write_nil_inv (d d' : scribble.Driver) (fs fs' : os.FS) (c r : string) (v : Value) :
  scribble.Write MarshalIndent d fs c r v = scribble.Returns None d' fs' →
  let dir := filepath.Join [scribble.dir d; c] in
  let fnlPath := filepath.Join [dir; r] in
  let tmpPath := fnlPath +:+ ".tmp" in
  c ≠ "" ∧ r ≠ "" ∧ scribble.dir d' = scribble.dir d ∧
  ∃ fs1 b fs2,
    os.MkdirAll dir fs = (fs1, None) ∧
    MarshalIndent v "" scribble.tab = inl b ∧
    os.WriteFile tmpPath b fs1 = (fs2, None) ∧
    os.Rename tmpPath fnlPath fs2 = (fs', None).
Proof.
  unfold scribble.Write. cbv zeta.
  case_bool_decide as Hc; [done |]. case_bool_decide as Hr; [done |].
  destruct (scribble.getOrCreateMutex d c) as [[m d1] |] eqn:Hget; [| done].
  destruct (sync.Lock m); [| done].
  apply getOrCreateMutex_dir in Hget as (Hdir & _). rewrite Hdir.
  destruct (os.MkdirAll _ fs) as [fs1 [e|]] eqn:Hmk; [done |].
  destruct (MarshalIndent v "" scribble.tab) as [b | e] eqn:Hb; [| done].
  destruct (os.WriteFile _ b fs1) as [fs2 [e|]] eqn:Hw; [done |].
  destruct (os.Rename _ _ fs2) as [fs3 e] eqn:Hren.
  intros [= -> <- <-]. split_and!; [done.. |]. by exists fs1, b, fs2.
Qed.

(** C6.  A call with an empty collection or resource name, and
    [ReadAll] of a collection whose directory [stat] does not find,
    return an error and leave the driver and the file system as they
    were. *)
Theorem validation_changes_nothing (d : scribble.Driver) (fs : os.FS)
    (c r : string) (v : Value) :
  (∃ e, scribble.Write MarshalIndent d fs "" r v = scribble.Returns (Some e) d fs) ∧
  (∃ e, scribble.Write MarshalIndent d fs c "" v = scribble.Returns (Some e) d fs) ∧
  (∃ e, scribble.Read Unmarshal d fs "" r = scribble.Returns (inr e) d fs) ∧
  (∃ e, scribble.Read Unmarshal d fs c "" = scribble.Returns (inr e) d fs) ∧
  (∃ e, scribble.ReadAll d fs "" = scribble.Returns (inr e) d fs) ∧
  (∀ err, scribble.stat (filepath.Join [scribble.dir d; c]) fs = inr err →
     ∃ e, scribble.ReadAll d fs c = scribble.Returns (inr e) d fs).
Proof.
  split_and!.
  - by eexists.
  - unfold scribble.Write. case_bool_decide; by eexists.
  - by eexists.
  - unfold scribble.Read. case_bool_decide; by eexists.
  - by eexists.
  - intros err Herr. unfold scribble.ReadAll. case_bool_decide; [by eexists |].
    cbv zeta. rewrite Herr. by eexists.
Qed.

(** C5.  With a codec that decodes what it encodes, a [Write] that
    returned [nil] followed by [Read] of the same non-empty names gives
    back the value written. *)
Theorem Write_Read_round_trip (d d' : scribble.Driver) (fs fs' : os.FS)
    (c r : string) (v : Value) :
  (∀ v b, MarshalIndent v "" scribble.tab = inl b → Unmarshal b = inl v) →
  c ≠ "" → r ≠ "" →
  scribble.Write MarshalIndent d fs c r v = scribble.Returns None d' fs' →
  scribble.Read Unmarshal d' fs' c r = scribble.Returns (inl v) d' fs'.
Proof.
  intros Hcodec Hc Hr Hw.
  apply Write_nil_inv in Hw as (_ & _ & Hdir & fs1 & b & fs2 & Hmk & Hb & Hwf & Hren).
  apply WriteFile_ok in Hwf as (i & Hcwd & _ & _ & Hlook & Hdata).
  assert (os.resolve fs1 = os.resolve fs2) as Hres
    by by (unfold os.resolve; rewrite Hcwd).
  rewrite Hres in Hlook.
  destruct (Rename_file_lookup _ _ _ _ _ Hlook Hren) as [Hfnl Hsame].
  unfold scribble.Read. rewrite !bool_decide_eq_false_2 by done. cbv zeta.
  rewrite Hdir, <- Join_Join by done.
  unfold scribble.stat, os.Stat, os.ReadFile. cbv zeta. rewrite Hfnl.
  rewrite Hsame, Hdata. by rewrite (Hcodec v b).
Qed.

End codec.

(** ** The calls return

    From a driver no mutex of which is held, which is what [New] returns,
    each method returns, and leaves such a driver with the same root. *)

Lemma New_registryFree (dir : string) (fs : os.FS) (d : scribble.Driver) :
  (scribble.New dir fs).2.1 = Some d →
  registryFree d ∧ scribble.dir d = filepath.Clean dir.
Proof.
  unfold scribble.New. cbv zeta. destruct (scribble.unsafeRoot _); [done |].
  destruct (os.Stat _ _); [| destruct (os.MkdirAll _ _)];
    intros [= <-]; split; try done; apply registryFree_fresh.
Qed.

Lemma Delete_returns (d : scribble.Driver) (fs : os.FS) (c r : string) :
  registryFree d →
  ∃ err d' fs', scribble.Delete d fs c r = scribble.Returns err d' fs'
    ∧ registryFree d' ∧ scribble.dir d' = scribble.dir d.
Proof.
  intros Hfree. destruct (decide (deletable c)) as [Hc | Hc];
    [| rewrite Delete_rejected by done; by eexists _, _, _].
  rewrite Delete_unfold by done.
  destruct (getOrCreateMutex_free d
              (filepath.Join [filepath.Clean c; filepath.Clean r]) Hfree)
    as (d' & -> & Hfree' & Hdir & _).
  change (sync.Lock sync.zero) with (Some (sync.mkMutex true)).
  cbv beta iota zeta. destruct (scribble.stat _ fs) as [fi | err].
  - destruct (_ || _); by eexists _, _, _.
  - destruct (strings.Contains _ _); by eexists _, _, _.
Qed.

Lemma ReadAll_returns (d : scribble.Driver) (fs : os.FS) (c : string) :
  ∃ res, scribble.ReadAll d fs c = scribble.Returns res d fs.
Proof.
  unfold scribble.ReadAll. case_bool_decide; [by eexists |].
  cbv zeta. destruct (scribble.stat _ fs); by eexists.
Qed.

Section returns.

Context {Value : Type}.
Variable MarshalIndent : Value → string → string → string + os.error.
Variable Unmarshal : string → Value + os.error.

Lemma Write_returns (d : scribble.Driver) (fs : os.FS) (c r : string) (v : Value) :
  registryFree d →
  ∃ err d' fs', scribble.Write MarshalIndent d fs c r v = scribble.Returns err d' fs'
    ∧ registryFree d' ∧ scribble.dir d' = scribble.dir d.
Proof.
  intros Hfree. unfold scribble.Write.
  case_bool_decide; [by eexists _, _, _ |].
  case_bool_decide; [by eexists _, _, _ |].
  destruct (getOrCreateMutex_free d c Hfree) as (d' & -> & Hfree' & Hdir & _).
  change (sync.Lock sync.zero) with (Some (sync.mkMutex true)).
  cbv beta iota zeta.
  destruct (os.MkdirAll _ fs) as [fs1 [e |]]; [by eexists _, _, _ |].
  destruct (MarshalIndent v "" scribble.tab) as [b | e]; [| by eexists _, _, _].
  destruct (os.WriteFile _ b fs1) as [fs2 [e |]]; [by eexists _, _, _ |].
  destruct (os.Rename _ _ fs2) as [fs3 e]. by eexists _, _, _.
Qed.

Lemma Read_returns (d : scribble.Driver) (fs : os.FS) (c r : string) :
  ∃ res, scribble.Read Unmarshal d fs c r = scribble.Returns res d fs.
Proof.
  unfold scribble.Read. case_bool_decide; [by eexists |].
  case_bool_decide; [by eexists |].
  cbv zeta. destruct (scribble.stat _ fs); [| by eexists].
  destruct (os.ReadFile _ fs); by eexists.
Qed.

(** The file system a call of [Write] leaves has no hard links when the
    one it found had none. *)
Lemma Write_noLinks (d d' : scribble.Driver) (fs fs' : os.FS) (c r : string)
    (v : Value) (err : option os.error) :
  scribble.Write MarshalIndent d fs c r v = scribble.Returns err d' fs' →
  noLinks fs → noLinks fs'.
Proof.
  unfold scribble.Write.
  case_bool_decide; [by intros [= _ _ <-] |].
  case_bool_decide; [by intros [= _ _ <-] |].
  destruct (scribble.getOrCreateMutex d c) as [[m d1] |]; [| done].
  destruct (sync.Lock m); [| done]. cbv zeta.
  destruct (os.MkdirAll _ fs) as [fs1 e1] eqn:Hmk.
  pose proof (noLinks_MkdirAll _ _ _ _ Hmk) as H1.
  destruct e1; [intros [= _ _ <-]; done |].
  destruct (MarshalIndent v "" scribble.tab) as [b | e]; [| intros [= _ _ <-]; done].
  destruct (os.WriteFile _ b fs1) as [fs2 e2] eqn:Hwf.
  pose proof (noLinks_WriteFile _ _ _ _ _ Hwf) as H2.
  destruct e2; [intros [= _ _ <-]; auto |].
  destruct (os.Rename _ _ fs2) as [fs3 e3] eqn:Hren. intros [= _ _ <-] Hfs.
  pose proof (WriteFile_ok _ _ _ _ Hwf) as (i & Hcwd & _ & _ & Hlook & _).
  eapply (noLinks_Rename_file _ _ _ _ i); [| done | auto].
  unfold os.resolve in *. by rewrite Hcwd.
Qed.

End returns.

Lemma New_noLinks (dir : string) (fs : os.FS) :
  noLinks fs → noLinks (scribble.New dir fs).1.
Proof.
  intros Hfs. unfold scribble.New. cbv zeta.
  destruct (scribble.unsafeRoot _); [done |]. destruct (os.Stat _ _); [done |].
  destruct (os.MkdirAll _ fs) as [fs' e1] eqn:Hmk. by eapply noLinks_MkdirAll.
Qed.

Lemma Delete_noLinks (d d' : scribble.Driver) (fs fs' : os.FS) (c r : string)
    (err : option os.error) :
  scribble.Delete d fs c r = scribble.Returns err d' fs' → noLinks fs → noLinks fs'.
Proof.
  destruct (decide (deletable c)) as [Hc | Hc];
    [| rewrite Delete_rejected by done; by intros [= _ _ <-]].
  rewrite Delete_unfold by done.
  destruct (scribble.getOrCreateMutex d _) as [[m d1] |]; [| done].
  destruct (sync.Lock m); [| done]. cbv zeta.
  destruct (scribble.stat _ fs) as [fi | e].
  - destruct (_ || _); [| by intros [= _ _ <-]].
    intros [= _ _ <-]. apply noLinks_RemoveAll.
  - destruct (strings.Contains _ _); by intros [= _ _ <-].
Qed.

Section publish.

Context {Value : Type}.
Variable MarshalIndent : Value → string → string → string + os.error.

(** C4.  A [Write] that returns [nil] went through these steps, in this
    order: the collection directory is made; the value is encoded; the
    temporary path, which is the final path followed by [.tmp] and so
    lies in the same directory (for a resource of one element it is the
    file [<resource>.tmp] of the collection directory), is opened with
    truncation and receives the encoded bytes, whole; the temporary path
    is renamed onto the final path.  On a file system without hard links the final path holds
    what it held before the call after each step but the last, and the
    encoded bytes, whole, after the rename. *)
Theorem Write_publishes_by_rename (d d' : scribble.Driver) (fs fs' : os.FS)
    (c r : string) (v : Value) :
  noLinks fs →
  scribble.Write MarshalIndent d fs c r v = scribble.Returns None d' fs' →
  let dir := filepath.Join [scribble.dir d; c] in
  let fnlPath := filepath.Join [dir; r] in
  let tmpPath := fnlPath +:+ ".tmp" in
  let final := os.resolve fs fnlPath in
  ∃ b fs1 f fs2 fs3,
    os.MkdirAll dir fs = (fs1, None) ∧
    MarshalIndent v "" scribble.tab = inl b ∧
    os.OpenFile tmpPath fs1 = (fs2, inl f) ∧
    fst (os.Write f b fs2) = fs3 ∧
    os.Rename tmpPath fnlPath fs3 = (fs', None) ∧
    filepath.Dir tmpPath = filepath.Dir fnlPath ∧
    os.resolve fs tmpPath ≠ final ∧
    (simpleName r →
     final = os.resolve fs dir ++ [r] ∧
     os.resolve fs tmpPath = os.resolve fs dir ++ [r +:+ ".tmp"]) ∧
    fileAt fs3 (os.resolve fs tmpPath) = Some b ∧
    fileAt fs1 final = fileAt fs final ∧
    fileAt fs2 final = fileAt fs final ∧
    fileAt fs3 final = fileAt fs final ∧
    fileAt fs' final = Some b.
Proof.
  intros Hlinks Hw. cbv zeta.
  apply Write_nil_inv in Hw as (_ & _ & _ & fs1 & b & fs3 & Hmk & Hb & Hwf & Hren).
  set (fnlPath := filepath.Join [filepath.Join [scribble.dir d; c]; r]) in *.
  set (tmpPath := fnlPath +:+ ".tmp") in *.
  pose proof (WriteFile_ok _ _ _ _ Hwf) as (i & Hcwd3 & Hnames3 & Hino3 & Hlook3 & Hdata3).
  pose proof (WriteFile_inv _ _ _ _ Hwf) as (f & fs2 & Hopen & Hwrite).
  pose proof (OpenFile_ok _ _ _ _ Hopen)
    as (Hp & _ & Hoff & Hcwd2 & Hnames2 & Hino2 & Hwhich).
  pose proof (MkdirAll_frame _ _ _ _ Hmk) as (Hcwd1 & _ & _ & _).
  assert (os.resolve fs1 = os.resolve fs) as Hres1
    by by (unfold os.resolve; rewrite Hcwd1).
  assert (os.resolve fs3 = os.resolve fs) as Hres3
    by by (unfold os.resolve; rewrite Hcwd3, Hcwd1).
  rewrite Hres1 in *. cbv zeta in *.
  set (tmp := os.resolve fs tmpPath) in *.
  set (final := os.resolve fs fnlPath) in *.
  assert (tmp ≠ final) as Hne by apply resolve_tmp_ne.
  assert (i = os.fino f) as ->.
  { assert (os.names fs3 = os.names fs2) as Hsame by by injection Hwrite as <-.
    apply (f_equal (λ m, m !! tmp)) in Hnames3.
    rewrite Hsame, Hnames2, !lookup_insert_eq in Hnames3. congruence. }
  pose proof (noLinks_MkdirAll _ _ _ _ Hmk Hlinks) as Hlinks1.
  assert (os.names fs1 !! final ≠ Some (os.Reg (os.fino f))) as Hother.
  { intros Hfinal. destruct (Hlinks1 final tmp _ Hfinal) as [Hlt Hinj].
    destruct Hwhich as [[Htmp _] | (_ & Hnew & _)]; [| lia].
    by specialize (Hinj Htmp). }
  assert (fileAt fs2 final = fileAt fs1 final) as H21.
  { apply (fileAt_other_inode _ _ _ (os.fino f) ""); [| done..].
    by rewrite Hnames2, lookup_insert_ne. }
  assert (fileAt fs3 final = fileAt fs1 final) as H31.
  { apply (fileAt_other_inode _ _ _ (os.fino f) b); [| done..].
    by rewrite Hnames3, lookup_insert_ne. }
  assert (os.lookupPath fs3 (os.resolve fs3 tmpPath) = inr (os.Reg (os.fino f)))
    as Hlook3' by by rewrite Hres3.
  destruct (Rename_file _ _ _ _ _ Hlook3' Hren) as (_ & _ & _ & _ & Hfs').
  rewrite Hres3 in Hfs'. fold tmp final in Hfs'.
  exists b, fs1, f, fs2, fs3. split_and!; try done.
  - by rewrite Hwrite.
  - apply Dir_tmp.
  - intros Hr. split; [by apply resolve_Join_name | by apply resolve_tmp_name].
  - unfold fileAt. by rewrite Hnames3, lookup_insert_eq, Hdata3.
  - by eapply fileAt_MkdirAll.
  - rewrite H21. by eapply fileAt_MkdirAll.
  - rewrite H31. by eapply fileAt_MkdirAll.
  - rewrite Hfs'. unfold fileAt, os.contents. simpl. rewrite lookup_insert_eq.
    unfold os.contents in Hdata3. by rewrite Hdata3.
Qed.

End publish.

(** ** Goroutines *)

(** Runs a call up to its next access to the shared state. *)
Ltac run_call :=
  cbn -[filepath.Join os.MkdirAll os.OpenFile os.Rename os.Write String.append
        scribble.getOrCreateMutex sync.Lock].

Section goroutines.

Context {Value : Type}.
Variable MarshalIndent : Value → string → string → string + os.error.

(** A call run alone is the method [Write]. *)
Lemma runAlone_Write (d : scribble.Driver) (fs : os.FS) (c r : string) (v : Value) :
  goroutine.runAlone MarshalIndent 10 (goroutine.spawn c r v) d fs
  = scribble.Write MarshalIndent d fs c r v.
Proof.
  unfold scribble.Write, goroutine.spawn, os.WriteFile.
  run_call. case_bool_decide; [done |].
  run_call. case_bool_decide; [done |].
  run_call. destruct (scribble.getOrCreateMutex d c) as [[m d1] |]; [| done].
  run_call. destruct (sync.Lock m) as [held |]; [| done].
  run_call. destruct (os.MkdirAll _ fs) as [fs1 [e |]]; [done |].
  run_call. destruct (MarshalIndent v "" scribble.tab) as [b | e]; [| done].
  run_call. destruct (os.OpenFile _ fs1) as [fs2 [f | e]]; [| done].
  run_call. destruct (os.Write f b fs2) as [fs3 f'].
  run_call.
  by destruct (os.Rename _ _ fs3) as [fs4 e].
Qed.

End goroutines.

(** C1, on the code.  [getOrCreateMutex] returns the mutex stored for the
    key by value.  When a first caller has obtained [m1] and locked it
    ([held] is its variable after [Lock]), a second call with the same key
    returns [m1] again, not locked, and leaves the registry as it is: the
    second caller locks its own copy while the first still holds its own.
    The mutex stored in the registry is never locked by anyone. *)
Theorem getOrCreateMutex_returns_copies (d d1 : scribble.Driver) (key : string)
    (m1 held : sync.Mutex) :
  scribble.getOrCreateMutex d key = Some (m1, d1) →
  sync.Lock m1 = Some held →
  sync.locked held = true ∧
  scribble.mutexes d1 !! key = Some m1 ∧
  sync.locked m1 = false ∧
  scribble.getOrCreateMutex d1 key = Some (m1, d1) ∧
  ∃ held2, sync.Lock m1 = Some held2.
Proof.
  intros Hget Hlock. apply getOrCreateMutex_dir in Hget as (_ & Hkey & Hg).
  unfold sync.Lock in Hlock. destruct (sync.locked m1) eqn:Hm1; [done |].
  injection Hlock as <-. split_and!; [done.. | |].
  - unfold scribble.getOrCreateMutex. rewrite Hg, Hkey.
    by destruct d1; simpl in *; subst.
  - unfold sync.Lock. rewrite Hm1. by eexists.
Qed.

Lemma getOrCreateMutex_returns_copies_witness :
  sync.locked (sync.mkMutex true) = true ∧
  scribble.mutexes (scribble.mkDriver sync.zero {[ "fish" := sync.zero ]} "/tmp/deep/school")
    !! "fish" = Some sync.zero ∧
  sync.locked sync.zero = false ∧
  scribble.getOrCreateMutex
    (scribble.mkDriver sync.zero {[ "fish" := sync.zero ]} "/tmp/deep/school") "fish"
  = Some (sync.zero,
          scribble.mkDriver sync.zero {[ "fish" := sync.zero ]} "/tmp/deep/school") ∧
  ∃ held2, sync.Lock sync.zero = Some held2.
Proof.
  apply (getOrCreateMutex_returns_copies schoolDriver _ "fish" sync.zero
           (sync.mkMutex true)); by vm_compute.
Defined.

(** The mutex a caller locks is not shared: two calls of [Write] on the
    same collection and resource are both past [mutex.Lock()] after three
    steps each. *)
Lemma two_calls_hold_the_mutex {Value : Type}
    (MarshalIndent : Value → string → string → string + os.error)
    (d : scribble.Driver) (fs : os.FS) (c r : string) (v1 v2 : Value) :
  registryFree d → c ≠ "" → r ≠ "" →
  ∃ d', goroutine.run MarshalIndent [0; 0; 0; 1; 1; 1]
          [goroutine.spawn c r v1; goroutine.spawn c r v2] d fs
        = ([goroutine.mkCall c r v1 (goroutine.AtMkdirAll (sync.mkMutex true));
            goroutine.mkCall c r v2 (goroutine.AtMkdirAll (sync.mkMutex true))],
           d', fs).
Proof.
  intros Hfree Hc Hr.
  destruct (getOrCreateMutex_free d c Hfree) as (d1 & Hg1 & Hfree1 & _).
  destruct (getOrCreateMutex_free d1 c Hfree1) as (d2 & Hg2 & _).
  exists d2. unfold goroutine.spawn.
  repeat first
    [ progress run_call
    | rewrite bool_decide_eq_false_2 by done
    | rewrite Hg1
    | rewrite Hg2
    | progress change (sync.Lock sync.zero) with (Some (sync.mkMutex true)) ].
  done.
Qed.

(** C2, on the code.  Two goroutines call [Write("fish", "redfish", v)]
    with the values [false] and [true] on the store of the tests, under
    the schedule [interleaved].  After six steps each both hold the mutex
    of the collection.  Both calls return.  The file of the resource then
    holds ["truee"]: the bytes of [true] followed by the last byte of
    [false], which is the encoding of neither value, and [Read] fails on
    it. *)
Theorem concurrent_Writes_mix_payloads :
  let calls := [goroutine.spawn "fish" "redfish" literal.false_;
                goroutine.spawn "fish" "redfish" literal.true_] in
  let '(during, _, _) :=
    goroutine.run literal.MarshalIndent (take 12 interleaved) calls schoolDriver school in
  let '(after, d', fs') :=
    goroutine.run literal.MarshalIndent interleaved calls schoolDriver school in
  map goroutine.holdsMutex during = [true; true] ∧
  map goroutine.returned after
  = [Some None;
     Some (Some (os.LinkError "rename" "/tmp/deep/school/fish/redfish.tmp"
                   "/tmp/deep/school/fish/redfish" os.ENOENT))] ∧
  os.ReadFile "/tmp/deep/school/fish/redfish" fs' = inl "truee" ∧
  literal.MarshalIndent literal.false_ "" scribble.tab = inl "false" ∧
  literal.MarshalIndent literal.true_ "" scribble.tab = inl "true" ∧
  scribble.Read literal.Unmarshal d' fs' "fish" "redfish"
  = scribble.Returns
      (inr (os.errorString "invalid character looking for beginning of value")) d' fs'.
Proof. by vm_compute. Qed.

(** ** The properties on the store of the tests *)

(** Settles a decidable proposition by evaluation. *)
Ltac by_decide := apply (bool_decide_unpack _); by vm_compute.

Lemma noLinks_dirs (fs : os.FS) :
  map_Forall (λ _ n, n = os.Dir) (os.names fs) → noLinks fs.
Proof. intros H p q i Hp. by apply H in Hp. Qed.

Lemma literal_round_trip (v : literal.Value) (b : string) :
  literal.MarshalIndent v "" scribble.tab = inl b → literal.Unmarshal b = inl v.
Proof. by destruct v; intros [= <-]. Qed.

Lemma Write_publishes_by_rename_witness :
  noLinks school ∧
  fileAt school ["tmp"; "deep"; "school"; "fish"; "redfish"] = None ∧
  fileAt stocked ["tmp"; "deep"; "school"; "fish"; "redfish"] = Some "true".
Proof.
  assert (noLinks school) as Hlinks.
  { apply noLinks_dirs. by_decide. }
  split; [done |]. split; [by vm_compute |].
  destruct (Write_publishes_by_rename literal.MarshalIndent
              schoolDriver stockedDriver school stocked "fish" "redfish" literal.true_
              Hlinks ltac:(by vm_compute))
    as (b & fs1 & f & fs2 & fs3 & _ & Hb & _ & _ & _ & _ & _ & _ & _ & _ & _ & _ & H).
  injection Hb as <-. exact H.
Defined.

Lemma Write_Read_round_trip_witness :
  scribble.Write literal.MarshalIndent schoolDriver school "fish" "redfish" literal.true_
  = scribble.Returns None stockedDriver stocked ∧
  scribble.Read literal.Unmarshal stockedDriver stocked "fish" "redfish"
  = scribble.Returns (inl literal.true_) stockedDriver stocked.
Proof.
  split; [by vm_compute |].
  apply (Write_Read_round_trip literal.MarshalIndent literal.Unmarshal
           schoolDriver stockedDriver school stocked "fish" "redfish" literal.true_);
    [apply literal_round_trip | done | done | by vm_compute].
Defined.

Lemma validation_changes_nothing_witness :
  ∃ e, scribble.ReadAll schoolDriver school "nothinghere"
       = scribble.Returns (inr e) schoolDriver school.
Proof.
  refine (proj2 (proj2 (proj2 (proj2 (proj2
            (validation_changes_nothing literal.MarshalIndent literal.Unmarshal
               schoolDriver school "nothinghere" "redfish" literal.true_)))))
            (os.PathError "stat" "/tmp/deep/school/nothinghere" os.ENOENT) _).
  by vm_compute.
Defined.


Lemma Delete_collection_witness :
  ∃ d' fs',
    scribble.Delete schoolDriver stocked "fish" "" = scribble.Returns None d' fs' ∧
    (∀ k, os.names fs' !! k
          = if decide (os.resolve stocked "/tmp/deep/school/fish" `prefix_of` k)
            then None else os.names stocked !! k) ∧
    scribble.ReadAll d' fs' "fish"
    = scribble.Returns
        (inr (scribble.collectionNotFound "/tmp/deep/school/fish"
                (os.PathError "stat" "/tmp/deep/school/fish" os.ENOENT)))
        d' fs'.
Proof.
  apply (Delete_collection schoolDriver stocked "fish");
    [apply registryFree_fresh | by_decide | by vm_compute].
Defined.



(** * Further properties of the driver *)

(** ** [New] on a fresh and on an existing directory *)

Lemma mkdirFrom_done (tree tree' : gmap (list string) os.node) (cur rest : list string) :
  os.mkdirFrom tree cur rest = (tree', None) →
  ∀ q, q `prefix_of` rest → q ≠ [] → tree' !! (cur ++ q) = Some os.Dir.
Proof.
  revert tree cur. induction rest as [|x rest IH]; intros tree cur H q Hq Hne.
  { by apply prefix_nil_inv in Hq. }
  destruct q as [|y q]; [done |].
  pose proof (prefix_cons_inv_1 _ _ _ _ Hq) as ->. apply prefix_cons_inv_2 in Hq.
  simpl in H.
  assert (∃ tree1, os.mkdirFrom tree1 (cur ++ [x]) rest = (tree', None)
                   ∧ tree1 !! (cur ++ [x]) = Some os.Dir) as (tree1 & H1 & Hx).
  { destruct (tree !! (cur ++ [x])) as [[|i]|] eqn:Hx; [by exists tree | done |].
    eexists. split; [done |]. by rewrite lookup_insert_eq. }
  destruct q as [|z q].
  - destruct (mkdirFrom_grows _ _ _ _ _ H1 (cur ++ [x])) as [-> | [? _]]; congruence.
  - rewrite (cons_middle x), app_assoc. by eapply IH.
Qed.

Lemma MkdirAll_done (name : string) (fs fs' : os.FS) :
  os.MkdirAll name fs = (fs', None) →
  os.lookupPath fs' (os.resolve fs' name) = inr os.Dir.
Proof.
  unfold os.MkdirAll. destruct (os.mkdirFrom _ _ _) as [tree [q|]] eqn:Hm; [done |].
  intros [= <-]. change (os.resolve (os.mkFS _ _ _ _) name) with (os.resolve fs name).
  pose proof (mkdirFrom_done _ _ _ _ Hm) as Hd. apply lookupPath_inr. split.
  - destruct (os.resolve fs name) as [|x p] eqn:Hp; [done |]. by apply (Hd (x :: p)).
  - intros [|y q] Hq Hne; [done |]. by apply (Hd (y :: q)).
Qed.

(** X1.  When [New] returns no error, the driver it returns has the
    cleaned directory as its root and an empty lock registry, the root can
    be reached afterwards, and the call only added directories: every name
    bound before is bound to the same node and every file holds the same
    bytes. *)
Theorem New_makes_the_root (dir : string) (fs fs' : os.FS) (d : scribble.Driver) :
  scribble.New dir fs = (fs', (Some d, None)) →
  d = scribble.mkDriver sync.zero ∅ (filepath.Clean dir) ∧
  (∃ n, os.lookupPath fs' (os.resolve fs' (scribble.dir d)) = inr n) ∧
  (∀ k n, os.names fs !! k = Some n → os.names fs' !! k = Some n) ∧
  (∀ k, os.names fs !! k = None → os.names fs' !! k = None ∨ os.names fs' !! k = Some os.Dir) ∧
  (∀ p, fileAt fs' p = fileAt fs p).
Proof.
  unfold scribble.New. cbv zeta. destruct (scribble.unsafeRoot _); [done |].
  destruct (os.Stat _ fs) as [fi | e] eqn:Hstat.
  - intros [= <- <-]. apply Stat_inl in Hstat as (n & Hn & _).
    split_and!; [done | by exists n | done | by left | done].
  - destruct (os.MkdirAll _ fs) as [fs1 e1] eqn:Hmk. intros [= <- <- ->].
    pose proof (MkdirAll_frame _ _ _ _ Hmk) as (_ & _ & _ & Hnames).
    split_and!; [done | | | |].
    + exists os.Dir. by eapply MkdirAll_done.
    + intros k n Hk. destruct (Hnames k) as [-> | [? _]]; congruence.
    + intros k Hk. destruct (Hnames k) as [-> | [_ ?]]; auto.
    + intros p. by eapply fileAt_MkdirAll.
Qed.

Lemma New_makes_the_root_witness :
  ∃ n, os.lookupPath school (os.resolve school "/tmp/deep/school") = inr n.
Proof.
  refine (proj1 (proj2 (New_makes_the_root "/tmp/deep/school" emptyFS school schoolDriver _))).
  by vm_compute.
Defined.

(** X2.  [New] can be repeated: after a call that returned no error, the
    same call, and the call on the root of the driver, return the same
    driver and leave the file system as it is. *)
Theorem New_again (dir : string) (fs fs' : os.FS) (d : scribble.Driver) :
  scribble.New dir fs = (fs', (Some d, None)) →
  scribble.New dir fs' = (fs', (Some d, None)) ∧
  scribble.New (scribble.dir d) fs' = (fs', (Some d, None)).
Proof.
  intros Hnew.
  assert (d = scribble.mkDriver sync.zero ∅ (filepath.Clean dir)
          ∧ ∃ n, os.lookupPath fs' (os.resolve fs' (filepath.Clean dir)) = inr n)
    as [-> [n Hn]].
  { revert Hnew. unfold scribble.New. cbv zeta. destruct (scribble.unsafeRoot _); [done |].
    destruct (os.Stat _ fs) as [fi | e] eqn:Hstat.
    - intros [= <- <-]. apply Stat_inl in Hstat as (n & Hn & _). split; [done | by exists n].
    - destruct (os.MkdirAll _ fs) as [fs1 e1] eqn:Hmk. intros [= <- <- ->].
      split; [done |]. exists os.Dir. by eapply MkdirAll_done. }
  assert (scribble.unsafeRoot (filepath.Clean dir) = false) as Hsafe.
  { revert Hnew. unfold scribble.New. cbv zeta. by destruct (scribble.unsafeRoot _). }
  cbn [scribble.dir].
  rewrite (New_safe dir), (New_safe (filepath.Clean dir)) by by rewrite ?Clean_Clean.
  rewrite Clean_Clean. unfold os.Stat. cbv zeta. by rewrite Hn.
Qed.

Lemma New_again_witness :
  scribble.New "/tmp/deep/school" school = (school, (Some schoolDriver, None)) ∧
  scribble.New (scribble.dir schoolDriver) school = (school, (Some schoolDriver, None)).
Proof. apply (New_again "/tmp/deep/school" emptyFS). by vm_compute. Defined.

(** ** [Delete] *)

Lemma Clean_pair (c r : string) :
  simpleName c → simpleName r →
  filepath.Clean (c +:+ "/" +:+ r) = c +:+ "/" +:+ r.
Proof.
  intros (Hc1 & Hc2 & Hc3 & Hc4) (Hr1 & Hr2 & Hr3 & Hr4).
  rewrite Clean_unfold by apply app_sep_nonempty.
  rewrite rooted_app, sepFree_not_rooted, split_app_sep, !split_sepFree by done.
  cbn [app fold_left]. rewrite (cleanStep_name _ _ c) by done.
  by rewrite (cleanStep_name _ _ r).
Qed.

Lemma Join_pair (c r : string) :
  simpleName c → simpleName r → filepath.Join [c; r] = c +:+ "/" +:+ r.
Proof.
  intros Hc Hr. rewrite Join_cons by apply Hc. by apply Clean_pair.
Qed.

(** For names of one element the path [Delete] removes is the path
    [Read] reads. *)
Lemma deleteTarget_simple (d : scribble.Driver) (c r : string) :
  simpleName c → simpleName r →
  deleteTarget d c r = filepath.Join [scribble.dir d; c; r].
Proof.
  intros Hc Hr. unfold deleteTarget.
  rewrite !Clean_simpleName, (Join_pair c r) by done.
  destruct (decide (scribble.dir d = "")) as [-> | Ha].
  - rewrite !Join_nil_cons, (Join_pair c r), Join_cons by (done || apply app_sep_nonempty).
    by apply Clean_pair.
  - by rewrite !Join_cons.
Qed.

Lemma resolve_record (fs : os.FS) (a c r : string) :
  simpleName c → simpleName r →
  os.resolve fs (filepath.Join [a; c; r]) = os.resolve fs a ++ [c; r].
Proof.
  intros Hc Hr. rewrite <- Join_Join by (apply Hc || apply Hr).
  by rewrite !resolve_Join_name, <- app_assoc.
Qed.



(** X4.  [Delete] refuses exactly the collections that clean to ["."] or
    to ["/"], the empty one among them, whatever the resource is: it
    returns the error for a missing collection and leaves the driver, its
    lock registry included, and the file system as they were.  The test
    for the empty string never decides, [Clean] returning no empty
    string. *)
Theorem Delete_rejects_exactly (d : scribble.Driver) (fs : os.FS) (c r : string) :
  (filepath.Clean c = "." ∨ filepath.Clean c = "/"
   ↔ scribble.Delete d fs c r = scribble.Returns (Some missingCollection) d fs)
  ∧ scribble.Delete d fs "" r = scribble.Returns (Some missingCollection) d fs
  ∧ filepath.Clean c ≠ "".
Proof.
  split_and!; [| done | apply Clean_nonempty]. split.
  - intros H. apply Delete_rejected. intros (_ & ? & ?). by destruct H.
  - intros H. destruct (decide (deletable c)) as [Hc | Hc].
    + exfalso. revert H. rewrite Delete_unfold by done.
      destruct (scribble.getOrCreateMutex d _) as [[m d1] |]; [| done].
      destruct (sync.Lock m); [| done]. cbv zeta.
      destruct (scribble.stat _ fs) as [fi | e].
      * destruct (_ || _); by intros [= ?].
      * destruct (strings.Contains _ _); [done | by intros [=]].
    + destruct (decide (filepath.Clean c = ".")) as [| H1]; [by left |].
      destruct (decide (filepath.Clean c = "/")) as [| H2]; [by right |].
      destruct Hc. split_and!; [apply Clean_nonempty | done | done].
Qed.

(** X5.  From a driver no mutex of which is held, [Delete] on a collection
    that passes its test returns, and has registered the mutex for the
    joined path of the collection and the resource: for a resource of a
    collection that is a key other than the name of the collection, which
    is the key for the whole collection. *)
Theorem Delete_registers_the_path (d : scribble.Driver) (fs : os.FS) (c r : string) :
  registryFree d → deletable c →
  let key := filepath.Join [filepath.Clean c; filepath.Clean r] in
  (∃ err d' fs',
    scribble.Delete d fs c r = scribble.Returns err d' fs' ∧
    registryFree d' ∧ scribble.dir d' = scribble.dir d ∧
    scribble.mutexes d' = <[key := sync.zero]> (scribble.mutexes d)) ∧
  (simpleName c → simpleName r → key = c +:+ "/" +:+ r ∧ key ≠ c) ∧
  (simpleName c → r = "" → key = c).
Proof.
  intros Hfree Hc key. split_and!.
  - rewrite Delete_unfold by done. fold key.
    destruct (getOrCreateMutex_free d key Hfree) as (d' & -> & Hfree' & Hdir & Hms).
    change (sync.Lock sync.zero) with (Some (sync.mkMutex true)).
    cbv beta iota zeta. destruct (scribble.stat _ fs) as [fi | e].
    + destruct (_ || _); by eexists _, _, _.
    + destruct (strings.Contains _ _); by eexists _, _, _.
  - intros Hsc Hsr. unfold key. rewrite !Clean_simpleName, Join_pair by done.
    split; [done |]. by apply append_ne_self.
  - intros Hsc ->. unfold key. rewrite Clean_simpleName by done.
    by apply Join_name_dot.
Qed.

Lemma Delete_registers_the_path_witness :
  ∃ err d' fs',
    scribble.Delete schoolDriver stocked "fish" "redfish" = scribble.Returns err d' fs' ∧
    registryFree d' ∧ scribble.dir d' = scribble.dir schoolDriver ∧
    scribble.mutexes d'
    = <[filepath.Join [filepath.Clean "fish"; filepath.Clean "redfish"] := sync.zero]>
        (scribble.mutexes schoolDriver).
Proof.
  apply (proj1 (Delete_registers_the_path schoolDriver stocked "fish" "redfish"
                  (registryFree_fresh _) ltac:(by_decide))).
Defined.

Section the_record.

Context {Value : Type}.
Variable Unmarshal : string → Value + os.error.

(** [Read] depends on the root of the driver, on the working directory,
    on what the path of the record leads to and on the bytes of the
    files. *)
Lemma Read_ext (d d' : scribble.Driver) (fs fs' : os.FS) (c r : string)
    (res : Value + os.error) :
  scribble.dir d' = scribble.dir d → os.cwd fs' = os.cwd fs →
  os.inodes fs' = os.inodes fs →
  os.lookupPath fs' (os.resolve fs (filepath.Join [scribble.dir d; c; r]))
  = os.lookupPath fs (os.resolve fs (filepath.Join [scribble.dir d; c; r])) →
  scribble.Read Unmarshal d fs c r = scribble.Returns res d fs →
  scribble.Read Unmarshal d' fs' c r = scribble.Returns res d' fs'.
Proof.
  intros Hdir Hcwd Hino Hlook. unfold scribble.Read.
  case_bool_decide; [by intros [= <-] |]. case_bool_decide; [by intros [= <-] |].
  cbv zeta. rewrite Hdir. unfold scribble.stat, os.Stat, os.ReadFile. cbv zeta.
  assert (os.resolve fs' = os.resolve fs) as ->
    by by (unfold os.resolve; rewrite Hcwd).
  rewrite Hlook. unfold os.contents. rewrite Hino.
  destruct (os.lookupPath fs _) as [e | [| i]]; by intros [= <-].
Qed.

(** X6.  [Delete] of a record that is there, collection and resource
    being names of one element, returns [nil]; [Read] of the record then
    fails in [stat] with "no such file or directory", and [Read] of every
    other record answers what it answered before. *)
Theorem Delete_removes_the_record (d : scribble.Driver) (fs : os.FS) (c r : string)
    (n : os.node) :
  registryFree d → simpleName c → simpleName r →
  let record := filepath.Join [scribble.dir d; c; r] in
  os.lookupPath fs (os.resolve fs record) = inr n →
  ∃ d' fs',
    scribble.Delete d fs c r = scribble.Returns None d' fs' ∧
    scribble.Read Unmarshal d' fs' c r
    = scribble.Returns (inr (os.PathError "stat" record os.ENOENT)) d' fs' ∧
    ∀ c' r' res, simpleName c' → simpleName r' → (c', r') ≠ (c, r) →
      scribble.Read Unmarshal d fs c' r' = scribble.Returns res d fs →
      scribble.Read Unmarshal d' fs' c' r' = scribble.Returns res d' fs'.
Proof.
  intros Hfree Hc Hr record Hn.
  destruct (Delete_existing d fs c r n Hfree (simpleName_deletable c Hc))
    as (d' & Hdel & Hfree' & Hdir); [by rewrite deleteTarget_simple |].
  rewrite deleteTarget_simple in Hdel by done. fold record in Hdel.
  assert (os.resolve fs record = os.resolve fs (scribble.dir d) ++ [c; r]) as Hrec
    by by apply resolve_record.
  exists d', (os.RemoveAll record fs).1. split_and!; [done | |].
  - unfold scribble.Read. rewrite !bool_decide_eq_false_2 by (apply Hc || apply Hr).
    cbv zeta. rewrite Hdir. fold record. unfold scribble.stat, os.Stat. cbv zeta.
    change (os.resolve (os.RemoveAll record fs).1 record) with (os.resolve fs record).
    rewrite (RemoveAll_gone _ _ n); [done | | done].
    rewrite Hrec. by destruct (os.resolve fs (scribble.dir d)).
  - intros c' r' res Hc' Hr' Hne. apply Read_ext; [done | done | done |].
    apply lookupPath_ext. intros [|x q] Hq; [done |].
    rewrite !nodeAt_names, RemoveAll_names by done.
    case_decide as Hpre; [| done]. exfalso. apply Hne.
    assert (os.resolve fs record `prefix_of`
              os.resolve fs (filepath.Join [scribble.dir d; c'; r'])) as Hboth
      by by etrans.
    rewrite Hrec, resolve_record in Hboth by done.
    apply prefix_app_inv in Hboth.
    pose proof (prefix_cons_inv_1 _ _ _ _ Hboth) as ->.
    apply prefix_cons_inv_2 in Hboth.
    by pose proof (prefix_cons_inv_1 _ _ _ _ Hboth) as ->.
Qed.

End the_record.

Lemma Delete_removes_the_record_witness :
  ∃ d' fs',
    scribble.Delete schoolDriver stocked "fish" "redfish" = scribble.Returns None d' fs' ∧
    scribble.Read literal.Unmarshal d' fs' "fish" "redfish"
    = scribble.Returns
        (inr (os.PathError "stat" "/tmp/deep/school/fish/redfish" os.ENOENT)) d' fs' ∧
    ∀ c' r' res, simpleName c' → simpleName r' → (c', r') ≠ ("fish", "redfish") →
      scribble.Read literal.Unmarshal schoolDriver stocked c' r'
      = scribble.Returns res schoolDriver stocked →
      scribble.Read literal.Unmarshal d' fs' c' r' = scribble.Returns res d' fs'.
Proof.
  apply (Delete_removes_the_record literal.Unmarshal schoolDriver stocked
           "fish" "redfish" (os.Reg 0));
    [apply registryFree_fresh | by_decide | by_decide | by vm_compute].
Defined.

(** ** [Write]: what a call leaves behind *)

Lemma OpenFile_fail (name : string) (fs fs1 : os.FS) (e : os.error) :
  os.OpenFile name fs = (fs1, inr e) →
  fs1 = fs ∧ ∃ errno, e = os.PathError "open" name errno.
Proof.
  unfold os.OpenFile. cbv zeta.
  destruct (os.resolve fs name); [intros [= <- <-]; eauto |].
  destruct (os.lookupPath _ _) as [? | [|?]];
    [intros [= <- <-]; eauto | | intros [= <- <-]; eauto].
  destruct (os.names fs !! _) as [[|?]|]; [intros [= <- <-]; eauto | done | done].
Qed.

Lemma WriteFile_fail (name data : string) (fs fs' : os.FS) (e : os.error) :
  os.WriteFile name data fs = (fs', Some e) →
  fs' = fs ∧ ∃ errno, e = os.PathError "open" name errno.
Proof.
  unfold os.WriteFile. destruct (os.OpenFile name fs) as [fs1 [f | err]] eqn:Ho; [done |].
  intros [= <- <-]. by eapply OpenFile_fail.
Qed.

Lemma Rename_fail (oldname newname : string) (fs fs' : os.FS) (e : os.error) :
  os.Rename oldname newname fs = (fs', Some e) →
  fs' = fs ∧ ∃ errno, e = os.LinkError "rename" oldname newname errno.
Proof.
  unfold os.Rename. cbv zeta.
  repeat case_match; try done; intros [= <- <-]; eauto.
Qed.

Lemma MkdirAll_error (name : string) (fs fs' : os.FS) (e : os.error) :
  os.MkdirAll name fs = (fs', Some e) →
  ∃ p, e = os.PathError "mkdir" p os.ENOTDIR.
Proof.
  unfold os.MkdirAll. destruct (os.mkdirFrom _ _ _) as [tree [q|]]; [| done].
  intros [= _ <-]. by eexists.
Qed.

(** A regular file on the way stops [MkdirAll] before it makes anything. *)
Lemma mkdirFrom_blocked (fs : os.FS) (cur rest : list string) :
  os.nodeAt fs cur = Some os.Dir →
  (os.walk fs cur rest = inl os.ENOTDIR ∨ ∃ i, os.walk fs cur rest = inr (os.Reg i)) →
  ∃ q i, q `prefix_of` rest ∧ q ≠ [] ∧ os.names fs !! (cur ++ q) = Some (os.Reg i) ∧
    os.mkdirFrom (os.names fs) cur rest = (os.names fs, Some (cur ++ q)).
Proof.
  revert cur. induction rest as [|x rest IH]; intros cur Hcur Hw.
  { simpl in Hw. rewrite Hcur in Hw. by destruct Hw as [? | [i ?]]. }
  simpl in Hw. rewrite Hcur in Hw. simpl.
  assert (os.nodeAt fs (cur ++ [x]) = os.names fs !! (cur ++ [x])) as Hn
    by by destruct cur.
  destruct (os.names fs !! (cur ++ [x])) as [[|i]|] eqn:Hx.
  - destruct (IH (cur ++ [x])) as (q & i & Hq & Hne & Hreg & Hmk); [done | done |].
    exists (x :: q), i. rewrite (cons_middle x), app_assoc.
    split_and!; [by apply prefix_cons | done | done | done].
  - exists [x], i. split_and!; [apply prefix_cons, prefix_nil | done | done | done].
  - exfalso. destruct rest; simpl in Hw; rewrite Hn in Hw; by destruct Hw as [? | [i ?]].
Qed.

Lemma MkdirAll_blocked (name : string) (fs : os.FS) :
  (os.lookupPath fs (os.resolve fs name) = inl os.ENOTDIR
   ∨ ∃ i, os.lookupPath fs (os.resolve fs name) = inr (os.Reg i)) →
  ∃ q i, q `prefix_of` os.resolve fs name ∧ os.names fs !! q = Some (os.Reg i) ∧
    os.MkdirAll name fs
    = (fs, Some (os.PathError "mkdir" ("/" +:+ strings.Join q "/") os.ENOTDIR)).
Proof.
  intros H.
  destruct (mkdirFrom_blocked fs [] (os.resolve fs name))
    as (q & i & Hq & Hne & Hreg & Hmk); [done | done |].
  exists q, i. split_and!; [done | done |].
  unfold os.MkdirAll. simpl in Hmk. rewrite Hmk. by destruct fs.
Qed.

(** [WriteFile] on a file system without hard links: the name holds the
    data, and the bytes of every other file are as before. *)
Lemma WriteFile_frame (name data : string) (fs fs2 : os.FS) :
  noLinks fs → os.WriteFile name data fs = (fs2, None) →
  let p := os.resolve fs name in
  ∃ i, os.cwd fs2 = os.cwd fs ∧
    os.names fs2 = <[p := os.Reg i]> (os.names fs) ∧
    os.lookupPath fs2 p = inr (os.Reg i) ∧
    fileAt fs2 p = Some data ∧
    (os.names fs !! p = Some (os.Reg i) ∨ os.names fs !! p = None) ∧
    ∀ q, q ≠ p → fileAt fs2 q = fileAt fs q.
Proof.
  intros Hlinks Hwf. cbv zeta.
  pose proof (WriteFile_ok _ _ _ _ Hwf) as (i & Hcwd & Hnames & Hino & Hlook & Hdata).
  pose proof (WriteFile_inv _ _ _ _ Hwf) as (f & fs1 & Hopen & Hwrite).
  pose proof (OpenFile_ok _ _ _ _ Hopen) as (_ & _ & _ & _ & Hnames1 & _ & Hwhich).
  set (p := os.resolve fs name) in *.
  assert (i = os.fino f) as ->.
  { assert (os.names fs2 = os.names fs1) as Hsame by by injection Hwrite as <-.
    apply (f_equal (λ m, m !! p)) in Hnames.
    rewrite Hsame, Hnames1, !lookup_insert_eq in Hnames. congruence. }
  exists (os.fino f). split_and!; [done | done | done | | |].
  - unfold fileAt. by rewrite Hnames, lookup_insert_eq, Hdata.
  - destruct Hwhich as [[? _] | [? _]]; auto.
  - intros q Hq. apply (fileAt_other_inode _ _ _ (os.fino f) data); [| done |].
    + by rewrite Hnames, lookup_insert_ne.
    + intros Hreg. destruct (Hlinks q p _ Hreg) as [Hlt Hinj].
      destruct Hwhich as [[Hp _] | (_ & Hnew & _)]; [| lia].
      by specialize (Hinj Hp).
Qed.

Section behind.

Context {Value : Type}.
Variable MarshalIndent : Value → string → string → string + os.error.

(** X7.  A [Write] that returns [nil], on a file system without hard
    links, changes one record: nothing is bound at the temporary path
    afterwards, also when a file was there before; every other name bound
    before, the final path apart, is bound to the same node; the only
    names added are directories and the final path; and every file other
    than these two holds the bytes it held. *)
Theorem Write_changes_one_record (d d' : scribble.Driver) (fs fs' : os.FS)
    (c r : string) (v : Value) :
  noLinks fs →
  scribble.Write MarshalIndent d fs c r v = scribble.Returns None d' fs' →
  let fnlPath := filepath.Join [filepath.Join [scribble.dir d; c]; r] in
  let final := os.resolve fs fnlPath in
  let tmp := os.resolve fs (fnlPath +:+ ".tmp") in
  os.names fs' !! tmp = None ∧
  (∀ k n, k ≠ final → k ≠ tmp →
          os.names fs !! k = Some n → os.names fs' !! k = Some n) ∧
  (∀ k, k ≠ final → os.names fs !! k = None →
        os.names fs' !! k = None ∨ os.names fs' !! k = Some os.Dir) ∧
  (∀ p, p ≠ final → p ≠ tmp → fileAt fs' p = fileAt fs p).
Proof.
  intros Hlinks Hw. cbv zeta.
  apply Write_nil_inv in Hw as (_ & _ & _ & fs1 & b & fs2 & Hmk & Hb & Hwf & Hren).
  set (fnlPath := filepath.Join [filepath.Join [scribble.dir d; c]; r]) in *.
  pose proof (MkdirAll_frame _ _ _ _ Hmk) as (Hcwd1 & _ & _ & Hnames1).
  pose proof (noLinks_MkdirAll _ _ _ _ Hmk Hlinks) as Hlinks1.
  pose proof (WriteFile_frame _ _ _ _ Hlinks1 Hwf)
    as (i & Hcwd2 & Hnames2 & Hlook2 & _ & _ & Hfile2).
  assert (os.resolve fs1 = os.resolve fs) as Hres1
    by by (unfold os.resolve; rewrite Hcwd1).
  assert (os.resolve fs2 = os.resolve fs) as Hres2
    by by (unfold os.resolve; rewrite Hcwd2, Hcwd1).
  rewrite Hres1 in *. cbv zeta in *.
  set (tmp := os.resolve fs (fnlPath +:+ ".tmp")) in *.
  set (final := os.resolve fs fnlPath) in *.
  assert (tmp ≠ final) as Hne by apply resolve_tmp_ne.
  assert (os.lookupPath fs2 (os.resolve fs2 (fnlPath +:+ ".tmp")) = inr (os.Reg i))
    as Hlook2' by by rewrite Hres2.
  destruct (Rename_file _ _ _ _ _ Hlook2' Hren) as (_ & _ & _ & _ & Hfs').
  rewrite Hres2 in Hfs'. fold tmp final in Hfs'.
  assert (∀ k, k ≠ final → k ≠ tmp → os.names fs' !! k = os.names fs1 !! k) as Hother.
  { intros k Hk1 Hk2. rewrite Hfs'. simpl.
    by rewrite lookup_insert_ne, lookup_delete_ne, Hnames2, lookup_insert_ne. }
  split_and!.
  - rewrite Hfs'. simpl. by rewrite lookup_insert_ne, lookup_delete_eq.
  - intros k n Hk1 Hk2 Hk. rewrite Hother by done.
    destruct (Hnames1 k) as [-> | [? _]]; congruence.
  - intros k Hk1 Hk. destruct (decide (k = tmp)) as [-> | Hk2].
    + left. rewrite Hfs'. simpl. by rewrite lookup_insert_ne, lookup_delete_eq.
    + rewrite Hother by done. destruct (Hnames1 k) as [-> | [_ ?]]; auto.
  - intros p Hp1 Hp2. rewrite <- (fileAt_MkdirAll _ _ _ _ p Hmk), <- Hfile2 by done.
    unfold fileAt. rewrite Hother, Hnames2, lookup_insert_ne by done.
    by rewrite Hfs'.
Qed.

(** X8.  A [Write] that returns an error, on a file system without hard
    links, has lost nothing: every name bound before is bound to the same
    node, and every file other than the temporary one holds the bytes it
    held.  Either no file has changed at all, or the error is the one of
    [Rename] and the temporary file is left behind, holding the encoded
    value. *)
Theorem Write_failure_loses_nothing (d d' : scribble.Driver) (fs fs' : os.FS)
    (c r : string) (v : Value) (err : os.error) :
  noLinks fs →
  scribble.Write MarshalIndent d fs c r v = scribble.Returns (Some err) d' fs' →
  let fnlPath := filepath.Join [filepath.Join [scribble.dir d; c]; r] in
  let tmpPath := fnlPath +:+ ".tmp" in
  let tmp := os.resolve fs tmpPath in
  (∀ k n, os.names fs !! k = Some n → os.names fs' !! k = Some n) ∧
  (∀ p, p ≠ tmp → fileAt fs' p = fileAt fs p) ∧
  ((∀ p, fileAt fs' p = fileAt fs p)
   ∨ ∃ b errno, MarshalIndent v "" scribble.tab = inl b ∧
       err = os.LinkError "rename" tmpPath fnlPath errno ∧
       fileAt fs' tmp = Some b).
Proof.
  intros Hlinks. unfold scribble.Write.
  case_bool_decide; [by intros [= _ _ <-]; auto |].
  case_bool_decide; [by intros [= _ _ <-]; auto |].
  destruct (scribble.getOrCreateMutex d c) as [[m d1] |] eqn:Hget; [| done].
  destruct (sync.Lock m); [| done]. cbv zeta.
  apply getOrCreateMutex_dir in Hget as (Hdir & _). rewrite Hdir.
  set (fnlPath := filepath.Join [filepath.Join [scribble.dir d; c]; r]).
  destruct (os.MkdirAll _ fs) as [fs1 e1] eqn:Hmk.
  pose proof (MkdirAll_frame _ _ _ _ Hmk) as (Hcwd1 & _ & _ & Hnames1).
  pose proof (noLinks_MkdirAll _ _ _ _ Hmk Hlinks) as Hlinks1.
  assert (∀ k n, os.names fs !! k = Some n → os.names fs1 !! k = Some n) as Hkept1.
  { intros k n Hk. destruct (Hnames1 k) as [-> | [? _]]; congruence. }
  assert (∀ p, fileAt fs1 p = fileAt fs p) as Hfile1
    by (intros p; by eapply fileAt_MkdirAll).
  destruct e1 as [e1 |]; [by intros [= _ _ <-]; auto |].
  destruct (MarshalIndent v "" scribble.tab) as [b | e] eqn:Hb;
    [| by intros [= _ _ <-]; auto].
  destruct (os.WriteFile _ b fs1) as [fs2 [e2 |]] eqn:Hwf.
  { apply WriteFile_fail in Hwf as [-> _]. by intros [= _ _ <-]; auto. }
  destruct (os.Rename _ _ fs2) as [fs3 e3] eqn:Hren. intros [= -> _ <-].
  apply Rename_fail in Hren as [-> [errno ->]].
  pose proof (WriteFile_frame _ _ _ _ Hlinks1 Hwf)
    as (i & _ & Hnames2 & _ & Htmp & Hwas & Hfile2).
  assert (os.resolve fs1 = os.resolve fs) as Hres1
    by by (unfold os.resolve; rewrite Hcwd1).
  rewrite Hres1 in *. cbv zeta in *.
  set (tmp := os.resolve fs (fnlPath +:+ ".tmp")) in *.
  split_and!.
  - intros k n Hk%Hkept1. rewrite Hnames2.
    destruct (decide (k = tmp)) as [-> | Hne]; [| by rewrite lookup_insert_ne].
    rewrite lookup_insert_eq. destruct Hwas; congruence.
  - intros p Hp. by rewrite Hfile2.
  - right. by exists b, errno.
Qed.


(** X10.  From a driver no mutex of which is held, [Write] with non-empty
    names returns, whatever becomes of the record, and has registered the
    mutex of the collection under its name as given; the mutexes
    registered before are kept and none is held. *)
Theorem Write_registers_the_collection (d : scribble.Driver) (fs : os.FS)
    (c r : string) (v : Value) :
  registryFree d → c ≠ "" → r ≠ "" →
  ∃ err d' fs',
    scribble.Write MarshalIndent d fs c r v = scribble.Returns err d' fs' ∧
    registryFree d' ∧ scribble.dir d' = scribble.dir d ∧
    scribble.mutexes d' = <[c := sync.zero]> (scribble.mutexes d) ∧
    scribble.mutexes d ⊆ scribble.mutexes d'.
Proof.
  intros Hfree Hc Hr. unfold scribble.Write. rewrite !bool_decide_eq_false_2 by done.
  destruct (getOrCreateMutex_free d c Hfree) as (d' & -> & Hfree' & Hdir & Hms).
  assert (scribble.mutexes d ⊆ scribble.mutexes d') as Hsub.
  { rewrite Hms. destruct (scribble.mutexes d !! c) as [m |] eqn:Hm.
    - destruct Hfree as [_ Hall]. rewrite <- (Mutex_unlocked m (Hall _ _ Hm)).
      by rewrite insert_id.
    - by apply insert_subseteq. }
  change (sync.Lock sync.zero) with (Some (sync.mkMutex true)).
  cbv beta iota zeta.
  destruct (os.MkdirAll _ fs) as [fs1 [e |]]; [by eexists _, _, _ |].
  destruct (MarshalIndent v "" scribble.tab) as [b | e]; [| by eexists _, _, _].
  destruct (os.WriteFile _ b fs1) as [fs2 [e |]]; [by eexists _, _, _ |].
  destruct (os.Rename _ _ fs2) as [fs3 e]. by eexists _, _, _.
Qed.

End behind.

Lemma noLinks_school : noLinks school.
Proof. apply noLinks_dirs. by_decide. Qed.

Lemma noLinks_stocked : noLinks stocked.
Proof.
  apply (Write_noLinks literal.MarshalIndent schoolDriver stockedDriver school stocked
           "fish" "redfish" literal.true_ None); [by vm_compute | apply noLinks_school].
Qed.

Lemma Write_changes_one_record_witness :
  os.names stocked !! ["tmp"; "deep"; "school"; "fish"; "redfish.tmp"] = None.
Proof.
  refine (proj1 (Write_changes_one_record literal.MarshalIndent schoolDriver stockedDriver
                   school stocked "fish" "redfish" literal.true_ noLinks_school _)).
  by vm_compute.
Defined.

Lemma Write_failure_loses_nothing_witness :
  let fs' := fsAfter (scribble.Write literal.MarshalIndent schoolDriver stocked
                        "fish" ".." literal.false_) stocked in
  (∀ p, fileAt fs' p = fileAt stocked p)
  ∨ ∃ b errno, literal.MarshalIndent literal.false_ "" scribble.tab = inl b ∧
      os.LinkError "rename" "/tmp/deep/school.tmp" "/tmp/deep/school" os.EISDIR
      = os.LinkError "rename" "/tmp/deep/school.tmp" "/tmp/deep/school" errno ∧
      fileAt fs' ["tmp"; "deep"; "school.tmp"] = Some b.
Proof.
  refine (proj2 (proj2 (Write_failure_loses_nothing literal.MarshalIndent schoolDriver
            (driverAfter (scribble.Write literal.MarshalIndent schoolDriver stocked
                            "fish" ".." literal.false_) schoolDriver)
            stocked
            (fsAfter (scribble.Write literal.MarshalIndent schoolDriver stocked
                        "fish" ".." literal.false_) stocked)
            "fish" ".." literal.false_
            (os.LinkError "rename" "/tmp/deep/school.tmp" "/tmp/deep/school" os.EISDIR)
            noLinks_stocked _))).
  by vm_compute.
Defined.


Lemma Write_registers_the_collection_witness :
  ∃ err d' fs',
    scribble.Write literal.MarshalIndent schoolDriver school "fish" "redfish" literal.true_
    = scribble.Returns err d' fs' ∧
    registryFree d' ∧ scribble.dir d' = scribble.dir schoolDriver ∧
    scribble.mutexes d' = <[ "fish" := sync.zero]> (scribble.mutexes schoolDriver) ∧
    scribble.mutexes schoolDriver ⊆ scribble.mutexes d'.
Proof.
  apply (Write_registers_the_collection literal.MarshalIndent schoolDriver school
           "fish" "redfish" literal.true_ (registryFree_fresh _)); done.
Defined.

(** ** [Write]: when it succeeds *)

Lemma parent_snoc (p : list string) (x : string) : os.parent (p ++ [x]) = p.
Proof. apply removelast_last. Qed.


(** [MkdirAll] binds nothing but the directory and its ancestors. *)
Lemma mkdirFrom_only_prefixes (tree tree' : gmap (list string) os.node)
    (cur rest : list string) (e : option (list string)) (k : list string) :
  os.mkdirFrom tree cur rest = (tree', e) →
  (∀ q, q `prefix_of` rest → k ≠ cur ++ q) →
  tree' !! k = tree !! k.
Proof.
  revert tree cur. induction rest as [|x rest IH]; intros tree cur H Hk; simpl in H.
  { congruence. }
  assert (∀ q, q `prefix_of` rest → k ≠ (cur ++ [x]) ++ q) as Hk'.
  { intros q Hq. rewrite <- app_assoc. apply (Hk (x :: q)). by apply prefix_cons. }
  destruct (tree !! (cur ++ [x])) as [[|i]|] eqn:Hx.
  - by eapply IH.
  - congruence.
  - rewrite (IH _ _ H Hk'). apply lookup_insert_ne.
    intros Heq. apply (Hk [x]); [apply prefix_cons, prefix_nil | done].
Qed.

Lemma MkdirAll_only_prefixes (name : string) (fs fs' : os.FS) (e : option os.error)
    (k : list string) :
  os.MkdirAll name fs = (fs', e) → ¬ k `prefix_of` os.resolve fs name →
  os.names fs' !! k = os.names fs !! k.
Proof.
  unfold os.MkdirAll. destruct (os.mkdirFrom _ _ _) as [tree e'] eqn:Hm.
  intros [= <- _] Hk. simpl. eapply mkdirFrom_only_prefixes; [done |].
  intros q Hq ->. by apply Hk.
Qed.




Section succeeds.

Context {Value : Type}.
Variable MarshalIndent : Value → string → string → string + os.error.


End succeeds.


(** ** [ReadAll] and [ReadAllMap] *)

(** *** The two loops *)

Lemma readRecords_spec (dir : string) (files : list os.FileInfo) (fs : os.FS)
    (recs : list string) :
  scribble.readRecords dir files fs = inl recs ↔
  Forall2 (λ f b, os.ReadFile (filepath.Join [dir; os.Name f]) fs = inl b) files recs.
Proof.
  revert recs. induction files as [|f files IH]; intros recs;
    cbn [scribble.readRecords].
  { split; [by intros [= <-]; constructor | by inversion 1]. }
  destruct (os.ReadFile (filepath.Join [dir; os.Name f]) fs) as [b | e] eqn:Hb.
  - destruct (scribble.readRecords dir files fs) as [recs' | e] eqn:Hrest.
    + split.
      * intros [= <-]. constructor; [done | by apply IH].
      * inversion 1 as [|? b' ? recs'' Hb' Hrest']; subst.
        apply IH in Hrest'. congruence.
    + split; [done |]. inversion 1 as [|? b' ? recs'' Hb' Hrest']; subst.
      by apply IH in Hrest'.
  - split; [done |]. inversion 1; congruence.
Qed.

Lemma readRecordsMap_spec (dir : string) (files : list os.FileInfo) (fs : os.FS)
    (acc m : gmap string string) (name : string) :
  scribble.readRecordsMap dir files fs acc = inl m →
  (name ∈ os.Name <$> files →
   ∃ b, os.ReadFile (filepath.Join [dir; name]) fs = inl b ∧ m !! name = Some b) ∧
  (name ∉ os.Name <$> files → m !! name = acc !! name).
Proof.
  revert acc. induction files as [|f files IH]; intros acc;
    cbn [scribble.readRecordsMap].
  { intros [= <-]. split; [by intros ?%elem_of_nil | done]. }
  destruct (os.ReadFile (filepath.Join [dir; os.Name f]) fs) as [b | e] eqn:Hb; [| done].
  intros [Hin Hout]%IH.
  destruct (decide (name ∈ os.Name <$> files)) as [Hmem | Hmem].
  - split; [by intros _; apply Hin |]. rewrite fmap_cons, not_elem_of_cons. tauto.
  - destruct (decide (name = os.Name f)) as [-> | Hne].
    + split; [| rewrite fmap_cons, not_elem_of_cons; tauto].
      intros _. exists b. by rewrite Hout, lookup_insert_eq.
    + split; [rewrite fmap_cons, elem_of_cons; tauto |].
      intros _. by rewrite Hout, lookup_insert_ne.
Qed.

Lemma readRecordsMap_total (dir : string) (files : list os.FileInfo) (fs : os.FS)
    (acc : gmap string string) :
  (∀ f, f ∈ files → ∃ b, os.ReadFile (filepath.Join [dir; os.Name f]) fs = inl b) →
  ∃ m, scribble.readRecordsMap dir files fs acc = inl m.
Proof.
  revert acc. induction files as [|f files IH]; intros acc Hall;
    cbn [scribble.readRecordsMap]; [by eexists |].
  destruct (Hall f) as [b ->]; [by left |].
  apply IH. intros f' Hf'. apply Hall. by right.
Qed.

(** Both loops stop at the first file that cannot be read. *)
Lemma readRecords_Map_error (dir : string) (files : list os.FileInfo) (fs : os.FS)
    (acc : gmap string string) (e : os.error) :
  scribble.readRecords dir files fs = inr e ↔
  scribble.readRecordsMap dir files fs acc = inr e.
Proof.
  revert acc. induction files as [|f files IH]; intros acc;
    cbn [scribble.readRecords scribble.readRecordsMap]; [by split |].
  destruct (os.ReadFile (filepath.Join [dir; os.Name f]) fs) as [b | e'];
    [| by split; intros [= <-]].
  rewrite <- IH. by destruct (scribble.readRecords dir files fs).
Qed.

Lemma readRecords_Map_values (dir : string) (files : list os.FileInfo) (fs : os.FS)
    (recs : list string) :
  scribble.readRecords dir files fs = inl recs →
  ∃ m, scribble.readRecordsMap dir files fs ∅ = inl m ∧
    ∀ b, b ∈ recs ↔ ∃ name, m !! name = Some b.
Proof.
  intros Hrecs%readRecords_spec.
  destruct (readRecordsMap_total dir files fs ∅) as [m Hm].
  { intros f [i Hi]%list_elem_of_lookup.
    destruct (Forall2_lookup_l _ _ _ _ _ Hrecs Hi) as (b & _ & Hb). by exists b. }
  exists m. split; [done |]. intros b. split.
  - intros [i Hi]%list_elem_of_lookup.
    destruct (Forall2_lookup_r _ _ _ _ _ Hrecs Hi) as (f & Hf & Hb).
    destruct (readRecordsMap_spec _ _ _ _ _ (os.Name f) Hm) as [Hin _].
    destruct Hin as (b' & Hb' & Hname).
    { apply list_elem_of_fmap_2. by eapply list_elem_of_lookup_2. }
    exists (os.Name f). congruence.
  - intros [name Hname].
    destruct (readRecordsMap_spec _ _ _ _ _ name Hm) as [Hin Hout].
    destruct (decide (name ∈ os.Name <$> files)) as [Hmem | Hmem];
      [| by rewrite Hout, lookup_empty in Hname].
    destruct (Hin Hmem) as (b' & Hb' & Hname').
    apply list_elem_of_fmap in Hmem as (f & -> & [i Hi]%list_elem_of_lookup).
    destruct (Forall2_lookup_l _ _ _ _ _ Hrecs Hi) as (b'' & Hrec & Hb'').
    assert (b = b'') as -> by congruence. by eapply list_elem_of_lookup_2.
Qed.

(** X12.  [ReadAllMap] and [ReadAll] agree: they fail together, with the
    same error, and when [ReadAll] returns records the values of the map
    of [ReadAllMap] are these records. *)
Theorem ReadAllMap_agrees_with_ReadAll (d : scribble.Driver) (fs : os.FS) (c : string) :
  (∀ e, scribble.ReadAll d fs c = scribble.Returns (inr e) d fs
        ↔ scribble.ReadAllMap d fs c = scribble.Returns (inr e) d fs) ∧
  (∀ recs, scribble.ReadAll d fs c = scribble.Returns (inl recs) d fs →
     ∃ m, scribble.ReadAllMap d fs c = scribble.Returns (inl m) d fs ∧
       ∀ b, b ∈ recs ↔ ∃ name, m !! name = Some b) ∧
  (∀ m, scribble.ReadAllMap d fs c = scribble.Returns (inl m) d fs →
     ∃ recs, scribble.ReadAll d fs c = scribble.Returns (inl recs) d fs).
Proof.
  unfold scribble.ReadAll, scribble.ReadAllMap.
  case_bool_decide.
  { split_and!; [intros e; split; by intros [= <-] | by intros ? [=] | by intros ? [=]]. }
  cbv zeta. destruct (scribble.stat _ fs) as [fi | err].
  2: { split_and!; [intros e; split; by intros [= <-] | by intros ? [=] | by intros ? [=]]. }
  set (dir := filepath.Join [scribble.dir d; c]).
  set (files := match os.ReadDir dir fs with inl files => files | inr _ => [] end).
  split_and!.
  - intros e. split; intros [= He]; f_equal; by apply (readRecords_Map_error _ _ _ ∅).
  - intros recs [= Hrecs].
    destruct (readRecords_Map_values _ _ _ _ Hrecs) as (m & -> & Hm). by exists m.
  - intros m [= Hm].
    destruct (scribble.readRecords dir files fs) as [recs | e] eqn:Hrecs; [by eexists |].
    apply (readRecords_Map_error _ _ _ ∅) in Hrecs. congruence.
Qed.

(** X13.  [ReadAll] and [ReadAllMap] of a collection name that leads to a
    regular file, a record for instance, return no records and no error:
    the error of [ReadDir] is dropped. *)
Theorem ReadAll_of_a_record (d : scribble.Driver) (fs : os.FS) (c : string)
    (i : os.ino) :
  c ≠ "" →
  os.lookupPath fs (os.resolve fs (filepath.Join [scribble.dir d; c])) = inr (os.Reg i) →
  os.ReadDir (filepath.Join [scribble.dir d; c]) fs
  = inr (os.PathError "readdirent" (filepath.Join [scribble.dir d; c]) os.ENOTDIR) ∧
  scribble.ReadAll d fs c = scribble.Returns (inl []) d fs ∧
  scribble.ReadAllMap d fs c = scribble.Returns (inl ∅) d fs.
Proof.
  intros Hc Hreg. unfold scribble.ReadAll, scribble.ReadAllMap.
  rewrite !bool_decide_eq_false_2 by done. cbv zeta.
  unfold scribble.stat, os.Stat, os.ReadDir. cbv zeta. by rewrite Hreg.
Qed.

Lemma ReadAll_of_a_record_witness :
  scribble.ReadAll schoolDriver stocked "fish/redfish"
  = scribble.Returns (inl []) schoolDriver stocked ∧
  scribble.ReadAllMap schoolDriver stocked "fish/redfish"
  = scribble.Returns (inl ∅) schoolDriver stocked.
Proof.
  refine (proj2 (ReadAll_of_a_record schoolDriver stocked "fish/redfish" 0 _ _));
    [done | by vm_compute].
Defined.

(** *** The entries of a directory *)

#[local] Instance nameLe_total : Total os.nameLe.
Proof. intros a b. apply String.leb_total. Qed.

Lemma child_path (k p : list string) :
  os.parent k = p → k ≠ [] → k = p ++ [os.baseName k].
Proof. intros <- Hk. by apply app_removelast_last. Qed.

Lemma baseName_snoc (p : list string) (x : string) : os.baseName (p ++ [x]) = x.
Proof. apply last_last. Qed.

(** The names of the entries of a directory, each once. *)
Lemma entries_NoDup (p : list string) (l : list (list string * os.node)) :
  NoDup (l.*1) →
  NoDup (os.Name <$>
           omap (λ kv, if bool_decide (os.parent kv.1 = p ∧ kv.1 ≠ [])
                       then Some (os.infoOf kv.1 kv.2) else None) l).
Proof.
  induction l as [|[k n] l IH]; [constructor |].
  rewrite fmap_cons. intros [Hk Hl]%NoDup_cons. simpl.
  case_bool_decide as Hchild; [| by apply IH]. rewrite fmap_cons.
  apply NoDup_cons. split; [| by apply IH].
  intros (fi & Hname & ([k' n'] & Hin & Hfi)%list_elem_of_omap)%list_elem_of_fmap.
  simpl in Hfi. case_bool_decide as Hchild'; [| done]. injection Hfi as <-.
  simpl in Hname. apply Hk. apply list_elem_of_fmap. exists (k', n').
  split; [| done]. simpl.
  destruct Hchild as [Hp Hne], Hchild' as [Hp' Hne'].
  rewrite (child_path k p), (child_path k' p) by done. by rewrite Hname.
Qed.

Lemma ReadDir_entries (name : string) (fs : os.FS) :
  os.lookupPath fs (os.resolve fs name) = inr os.Dir →
  ∃ files, os.ReadDir name fs = inl files ∧
    Sorted (λ a b, String.leb a b = true) (os.Name <$> files) ∧
    NoDup (os.Name <$> files) ∧
    ∀ fi, fi ∈ files ↔
      ∃ x n, os.names fs !! (os.resolve fs name ++ [x]) = Some n ∧
        fi = os.infoOf (os.resolve fs name ++ [x]) n.
Proof.
  intros Hdir. unfold os.ReadDir. cbv zeta. rewrite Hdir.
  set (p := os.resolve fs name). eexists. split; [done |]. split_and!.
  - apply (Sorted_fmap _ os.nameLe); [done |]. apply (Sorted_merge_sort _).
  - rewrite merge_sort_Permutation. apply entries_NoDup, NoDup_fst_map_to_list.
  - intros fi. rewrite merge_sort_Permutation, list_elem_of_omap. split.
    + intros ([k n] & Hin%elem_of_map_to_list & Hfi). simpl in Hfi.
      case_bool_decide as Hchild; [| done]. injection Hfi as <-.
      destruct Hchild as [Hp Hne]. exists (os.baseName k), n.
      by rewrite <- (child_path k p).
    + intros (x & n & Hn & ->). exists (p ++ [x], n).
      split; [by apply elem_of_map_to_list |]. simpl.
      rewrite bool_decide_eq_true_2; [done |].
      split; [apply parent_snoc | by destruct p].
Qed.

Lemma wellNamed_child (fs : os.FS) (p : list string) (x : string) (n : os.node) :
  wellNamed fs → os.names fs !! (p ++ [x]) = Some n → simpleName x.
Proof.
  intros [_ Hall] Hn. apply Hall in Hn. simpl in Hn.
  apply Forall_app in Hn as [_ Hx]. by inversion Hx.
Qed.

(** Reading the entry [x] of the directory [dir]. *)
Lemma ReadFile_child (fs : os.FS) (dir x : string) (n : os.node) :
  simpleName x →
  os.lookupPath fs (os.resolve fs dir) = inr os.Dir →
  os.names fs !! (os.resolve fs dir ++ [x]) = Some n →
  os.ReadFile (filepath.Join [dir; x]) fs
  = match n with
    | os.Dir => inr (os.PathError "read" (filepath.Join [dir; x]) os.EISDIR)
    | os.Reg i => inl (os.contents fs i)
    end.
Proof.
  intros Hx Hdir Hn. unfold os.ReadFile. rewrite resolve_Join_name by done.
  rewrite (lookupPath_child fs _ n); [done | | | done].
  - by destruct (os.resolve fs dir).
  - by rewrite parent_snoc.
Qed.

Lemma ReadAllMap_listing (d : scribble.Driver) (fs : os.FS) (c : string) :
  wellNamed fs → c ≠ "" →
  let p := os.resolve fs (filepath.Join [scribble.dir d; c]) in
  os.lookupPath fs p = inr os.Dir →
  ((∃ m, scribble.ReadAllMap d fs c = scribble.Returns (inl m) d fs)
   ↔ ∀ x, os.names fs !! (p ++ [x]) ≠ Some os.Dir) ∧
  (∀ m, scribble.ReadAllMap d fs c = scribble.Returns (inl m) d fs →
     ∀ x, m !! x = fileAt fs (p ++ [x])).
Proof.
  intros Hwn Hc p Hdir. unfold scribble.ReadAllMap.
  rewrite bool_decide_eq_false_2 by done. cbv zeta.
  set (dir := filepath.Join [scribble.dir d; c]) in *.
  unfold scribble.stat, os.Stat. cbv zeta. fold p. rewrite Hdir.
  destruct (ReadDir_entries dir fs Hdir) as (files & -> & _ & _ & Hfiles).
  fold p in Hfiles.
  assert (∀ x, x ∈ os.Name <$> files ↔ is_Some (os.names fs !! (p ++ [x]))) as Hnames.
  { intros x. rewrite list_elem_of_fmap. split.
    - intros (fi & -> & (y & n & Hn & ->)%Hfiles). simpl.
      rewrite baseName_snoc. by exists n.
    - intros [n Hn]. exists (os.infoOf (p ++ [x]) n). simpl.
      rewrite baseName_snoc. split; [done |]. apply Hfiles. by exists x, n. }
  split.
  - split.
    + intros [m [= Hm]] x Hx.
      destruct (readRecordsMap_spec _ _ _ _ _ x Hm) as [Hin _].
      destruct Hin as (b & Hb & _); [apply Hnames; by eexists |].
      rewrite (ReadFile_child fs dir x os.Dir) in Hb; [done | | done | done].
      by eapply wellNamed_child.
    + intros Hfilesonly.
      destruct (readRecordsMap_total dir files fs ∅) as [m ->]; [| by eexists].
      intros fi (x & n & Hn & ->)%Hfiles. cbn [os.infoOf os.Name].
      rewrite baseName_snoc.
      rewrite (ReadFile_child fs dir x n); [| by eapply wellNamed_child | done | done].
      destruct n as [|i]; [by destruct (Hfilesonly x) | by eexists].
  - intros m [= Hm] x.
    destruct (readRecordsMap_spec _ _ _ _ _ x Hm) as [Hin Hout]. unfold fileAt.
    destruct (os.names fs !! (p ++ [x])) as [n |] eqn:Hn.
    + destruct Hin as (b & Hb & ->); [apply Hnames; by eexists |].
      rewrite (ReadFile_child fs dir x n) in Hb; [| by eapply wellNamed_child | done..].
      destruct n; [done | by injection Hb as <-].
    + rewrite Hout, lookup_empty; [done |].
      intros [n' Hn']%Hnames. fold p in Hn'. congruence.
Qed.

(** X14.  On a file system whose names are made of elements of one name,
    for a collection whose directory can be reached: [ReadAllMap] returns
    a map exactly when no entry of the directory is a directory, and the
    map then binds each file name of the directory to the bytes of the
    file, and nothing else. *)
Theorem ReadAllMap_lists_the_files (d : scribble.Driver) (fs : os.FS) (c : string) :
  wellNamed fs → c ≠ "" →
  let p := os.resolve fs (filepath.Join [scribble.dir d; c]) in
  os.lookupPath fs p = inr os.Dir →
  ((∃ m, scribble.ReadAllMap d fs c = scribble.Returns (inl m) d fs)
   ↔ ∀ x, os.names fs !! (p ++ [x]) ≠ Some os.Dir) ∧
  (∀ m, scribble.ReadAllMap d fs c = scribble.Returns (inl m) d fs →
     ∀ x, m !! x = fileAt fs (p ++ [x])).
Proof. apply ReadAllMap_listing. Qed.

Lemma ReadAllMap_lists_the_files_witness :
  ((∃ m, scribble.ReadAllMap schoolDriver stocked "fish"
         = scribble.Returns (inl m) schoolDriver stocked)
   ↔ ∀ x, os.names stocked !! (["tmp"; "deep"; "school"; "fish"] ++ [x]) ≠ Some os.Dir) ∧
  (∀ m, scribble.ReadAllMap schoolDriver stocked "fish"
        = scribble.Returns (inl m) schoolDriver stocked →
     ∀ x, m !! x = fileAt stocked (["tmp"; "deep"; "school"; "fish"] ++ [x])).
Proof.
  refine (ReadAllMap_lists_the_files schoolDriver stocked "fish" _ _ _);
    [by_decide | done | by vm_compute].
Defined.

(** X15.  Under the same conditions the records [ReadAll] returns are
    the bytes of the files of the collection directory, one record for
    each file, in the order of the file names. *)
Theorem ReadAll_in_name_order (d : scribble.Driver) (fs : os.FS) (c : string)
    (recs : list string) :
  wellNamed fs → c ≠ "" →
  let p := os.resolve fs (filepath.Join [scribble.dir d; c]) in
  os.lookupPath fs p = inr os.Dir →
  scribble.ReadAll d fs c = scribble.Returns (inl recs) d fs →
  ∃ names,
    Sorted (λ a b, String.leb a b = true) names ∧ NoDup names ∧
    (∀ x, x ∈ names ↔ is_Some (os.names fs !! (p ++ [x]))) ∧
    Forall2 (λ x b, fileAt fs (p ++ [x]) = Some b) names recs.
Proof.
  intros Hwn Hc p Hdir. unfold scribble.ReadAll.
  rewrite bool_decide_eq_false_2 by done. cbv zeta.
  set (dir := filepath.Join [scribble.dir d; c]) in *.
  unfold scribble.stat, os.Stat. cbv zeta. fold p. rewrite Hdir.
  destruct (ReadDir_entries dir fs Hdir) as (files & -> & Hsorted & Hnodup & Hfiles).
  fold p in Hfiles. intros [= Hrecs%readRecords_spec].
  exists (os.Name <$> files). split_and!; [done | done | |].
  - intros x. rewrite list_elem_of_fmap. split.
    + intros (fi & -> & (y & n & Hn & ->)%Hfiles). simpl.
      rewrite baseName_snoc. by exists n.
    + intros [n Hn]. exists (os.infoOf (p ++ [x]) n). simpl.
      rewrite baseName_snoc. split; [done |]. apply Hfiles. by exists x, n.
  - apply Forall2_fmap_l, Forall2_same_length_lookup.
    split; [by eapply Forall2_length |]. intros i fi b Hi Hbi.
    pose proof (Forall2_lookup_lr _ _ _ _ _ _ Hrecs Hi Hbi) as Hb.
    apply list_elem_of_lookup_2, Hfiles in Hi as (x & n & Hn & ->).
    unfold compose. cbn [os.infoOf os.Name] in Hb |- *. rewrite baseName_snoc in *.
    rewrite (ReadFile_child fs dir x n) in Hb; [| by eapply wellNamed_child | done..].
    unfold fileAt. rewrite Hn. destruct n; [done | by injection Hb as <-].
Qed.

Lemma ReadAll_in_name_order_witness :
  ∃ names,
    Sorted (λ a b, String.leb a b = true) names ∧ NoDup names ∧
    (∀ x, x ∈ names
          ↔ is_Some (os.names stocked !! (["tmp"; "deep"; "school"; "fish"] ++ [x]))) ∧
    Forall2 (λ x b, fileAt stocked (["tmp"; "deep"; "school"; "fish"] ++ [x]) = Some b)
      names ["true"].
Proof.
  refine (ReadAll_in_name_order schoolDriver stocked "fish" ["true"] _ _ _ _);
    [by_decide | done | by vm_compute | by vm_compute].
Defined.

(** ** The names the calls bind *)

Lemma cleanStep_simple (out : list string) (x : string) :
  sepFree x → Forall simpleName out →
  Forall simpleName (filepath.cleanStep true out x).
Proof.
  intros Hx Hout. unfold filepath.cleanStep.
  destruct (bool_decide (x = "") || bool_decide (x = ".")) eqn:Hskip; [done |].
  apply orb_false_iff in Hskip as [H1%bool_decide_eq_false H2%bool_decide_eq_false].
  case_bool_decide as H3.
  - destruct out as [|y out]; [done |]. apply Forall_cons in Hout as [Hy Hout].
    rewrite bool_decide_eq_false_2; [done |]. by destruct Hy as (_ & _ & ? & _).
  - by constructor.
Qed.

Lemma fold_cleanStep_simple (l out : list string) :
  Forall sepFree l → Forall simpleName out →
  Forall simpleName (fold_left (filepath.cleanStep true) l out).
Proof.
  revert out. induction l as [|x l IH]; intros out Hl Hout; [done |].
  apply Forall_cons in Hl as [Hx Hl]. simpl. by apply IH, cleanStep_simple.
Qed.

(** Name resolution yields names of one element each. *)
Lemma resolve_simple (fs : os.FS) (name : string) :
  Forall simpleName (os.cwd fs) → Forall simpleName (os.resolve fs name).
Proof.
  intros Hcwd. unfold os.resolve. apply Forall_rev, fold_cleanStep_simple.
  - apply split_elems_sepFree.
  - destruct (filepath.rooted name); [done | by apply Forall_rev].
Qed.

Lemma Forall_prefix (P : string → Prop) (k l : list string) :
  k `prefix_of` l → Forall P l → Forall P k.
Proof. intros [k' ->] Hl. by apply Forall_app in Hl as [? _]. Qed.

Lemma wellNamed_MkdirAll (name : string) (fs fs' : os.FS) (e : option os.error) :
  os.MkdirAll name fs = (fs', e) → wellNamed fs → wellNamed fs'.
Proof.
  intros Hmk [Hcwd Hall].
  pose proof (MkdirAll_frame _ _ _ _ Hmk) as (Hcwd' & _).
  split; [by rewrite Hcwd' |]. intros k n Hk. simpl.
  destruct (decide (k `prefix_of` os.resolve fs name)) as [Hpre | Hpre].
  - eapply Forall_prefix; [done |]. by apply resolve_simple.
  - rewrite (MkdirAll_only_prefixes _ _ _ _ _ Hmk Hpre) in Hk. by apply Hall in Hk.
Qed.

Lemma wellNamed_WriteFile (name data : string) (fs fs' : os.FS) (e : option os.error) :
  os.WriteFile name data fs = (fs', e) → wellNamed fs → wellNamed fs'.
Proof.
  destruct e as [e |]; [by intros [-> _]%WriteFile_fail |].
  intros (i & Hcwd & Hnames & _)%WriteFile_ok [Hcwd0 Hall].
  split; [by rewrite Hcwd |]. intros k n. rewrite Hnames. simpl.
  destruct (decide (k = os.resolve fs name)) as [-> | Hne].
  - intros _. by apply resolve_simple.
  - rewrite lookup_insert_ne by done. apply Hall.
Qed.

Lemma wellNamed_Rename_file (oldname newname : string) (fs fs' : os.FS)
    (i : os.ino) (e : option os.error) :
  os.lookupPath fs (os.resolve fs oldname) = inr (os.Reg i) →
  os.Rename oldname newname fs = (fs', e) → wellNamed fs → wellNamed fs'.
Proof.
  intros Hold Hren [Hcwd Hall]. destruct e as [e |].
  { by apply Rename_fail in Hren as [-> _]. }
  destruct (Rename_file _ _ _ _ _ Hold Hren) as (_ & _ & _ & _ & ->).
  split; [done |]. intros k n. simpl.
  destruct (decide (k = os.resolve fs newname)) as [-> | Hne].
  - intros _. by apply resolve_simple.
  - rewrite lookup_insert_ne by done.
    intros Hk%lookup_delete_Some. by apply (Hall k n), Hk.
Qed.

Lemma wellNamed_RemoveAll (name : string) (fs : os.FS) :
  wellNamed fs → wellNamed (os.RemoveAll name fs).1.
Proof.
  intros [Hcwd Hall]. split; [done |]. intros k n. rewrite RemoveAll_names.
  case_decide; [done |]. apply Hall.
Qed.

Lemma New_wellNamed (dir : string) (fs : os.FS) :
  wellNamed fs → wellNamed (scribble.New dir fs).1.
Proof.
  intros Hfs. unfold scribble.New. cbv zeta.
  destruct (scribble.unsafeRoot _); [done |]. destruct (os.Stat _ _); [done |].
  destruct (os.MkdirAll _ fs) as [fs' e1] eqn:Hmk. by eapply wellNamed_MkdirAll.
Qed.

Lemma Delete_wellNamed (d d' : scribble.Driver) (fs fs' : os.FS) (c r : string)
    (err : option os.error) :
  scribble.Delete d fs c r = scribble.Returns err d' fs' → wellNamed fs → wellNamed fs'.
Proof.
  destruct (decide (deletable c)) as [Hc | Hc];
    [| rewrite Delete_rejected by done; by intros [= _ _ <-]].
  rewrite Delete_unfold by done.
  destruct (scribble.getOrCreateMutex d _) as [[m d1] |]; [| done].
  destruct (sync.Lock m); [| done]. cbv zeta.
  destruct (scribble.stat _ fs) as [fi | e].
  - destruct (_ || _); [| by intros [= _ _ <-]].
    intros [= _ _ <-]. apply wellNamed_RemoveAll.
  - destruct (strings.Contains _ _); by intros [= _ _ <-].
Qed.

Section names.

Context {Value : Type}.
Variable MarshalIndent : Value → string → string → string + os.error.

Lemma Write_wellNamed (d d' : scribble.Driver) (fs fs' : os.FS) (c r : string)
    (v : Value) (err : option os.error) :
  scribble.Write MarshalIndent d fs c r v = scribble.Returns err d' fs' →
  wellNamed fs → wellNamed fs'.
Proof.
  unfold scribble.Write.
  case_bool_decide; [by intros [= _ _ <-] |].
  case_bool_decide; [by intros [= _ _ <-] |].
  destruct (scribble.getOrCreateMutex d c) as [[m d1] |]; [| done].
  destruct (sync.Lock m); [| done]. cbv zeta.
  destruct (os.MkdirAll _ fs) as [fs1 e1] eqn:Hmk.
  pose proof (wellNamed_MkdirAll _ _ _ _ Hmk) as H1.
  destruct e1; [intros [= _ _ <-]; done |].
  destruct (MarshalIndent v "" scribble.tab) as [b | e]; [| intros [= _ _ <-]; done].
  destruct (os.WriteFile _ b fs1) as [fs2 e2] eqn:Hwf.
  pose proof (wellNamed_WriteFile _ _ _ _ _ Hwf) as H2.
  destruct e2; [intros [= _ _ <-]; auto |].
  destruct (os.Rename _ _ fs2) as [fs3 e3] eqn:Hren. intros [= _ _ <-] Hfs.
  pose proof (WriteFile_ok _ _ _ _ Hwf) as (i & Hcwd & _ & _ & Hlook & _).
  eapply (wellNamed_Rename_file _ _ _ _ i); [| done | auto].
  unfold os.resolve in *. by rewrite Hcwd.
Qed.

(** X16.  [New], [Write] and [Delete] keep the file system in order,
    whatever they return: the names bound are made of elements of one
    name each, and no file has two names. *)
Theorem calls_keep_the_file_system_in_order (fs : os.FS) :
  wellNamed fs → noLinks fs →
  (∀ dir, wellNamed (scribble.New dir fs).1 ∧ noLinks (scribble.New dir fs).1) ∧
  (∀ d c r v err d' fs',
     scribble.Write MarshalIndent d fs c r v = scribble.Returns err d' fs' →
     wellNamed fs' ∧ noLinks fs') ∧
  (∀ d c r err d' fs',
     scribble.Delete d fs c r = scribble.Returns err d' fs' →
     wellNamed fs' ∧ noLinks fs').
Proof.
  intros Hwn Hlinks. split_and!.
  - intros dir. split; [by apply New_wellNamed | by apply New_noLinks].
  - intros d c r v err d' fs' Hw.
    split; [by eapply Write_wellNamed | by eapply Write_noLinks].
  - intros d c r err d' fs' Hdel.
    split; [by eapply Delete_wellNamed | by eapply Delete_noLinks].
Qed.

End names.

Lemma calls_keep_the_file_system_in_order_witness : wellNamed school ∧ noLinks school.
Proof.
  refine (proj1 (calls_keep_the_file_system_in_order literal.MarshalIndent emptyFS _ _)
            "/tmp/deep/school").
  - by_decide.
  - apply noLinks_dirs. by_decide.
Defined.

(** ** [Delete] outside the root *)





(** ** [Write] followed by [ReadAllMap] *)

Section listing.

Context {Value : Type}.
Variable MarshalIndent : Value → string → string → string + os.error.

(** What a [Write] that returned [nil] has done to the names and the
    files. *)
Lemma Write_nil_effect (d d' : scribble.Driver) (fs fs' : os.FS) (c r : string)
    (v : Value) :
  noLinks fs →
  scribble.Write MarshalIndent d fs c r v = scribble.Returns None d' fs' →
  let dir := filepath.Join [scribble.dir d; c] in
  let final := os.resolve fs (filepath.Join [dir; r]) in
  let tmp := os.resolve fs (filepath.Join [dir; r] +:+ ".tmp") in
  ∃ b fs1 i,
    os.MkdirAll dir fs = (fs1, None) ∧
    MarshalIndent v "" scribble.tab = inl b ∧
    scribble.dir d' = scribble.dir d ∧ os.cwd fs' = os.cwd fs ∧
    (∀ k, os.names fs' !! k
          = if decide (k = final) then Some (os.Reg i)
            else if decide (k = tmp) then None else os.names fs1 !! k) ∧
    fileAt fs' final = Some b ∧
    ∀ q, q ≠ final → q ≠ tmp → fileAt fs' q = fileAt fs q.
Proof.
  intros Hlinks Hw. cbv zeta.
  apply Write_nil_inv in Hw as (_ & _ & Hd & fs1 & b & fs2 & Hmk & Hb & Hwf & Hren).
  set (fnlPath := filepath.Join [filepath.Join [scribble.dir d; c]; r]) in *.
  pose proof (MkdirAll_frame _ _ _ _ Hmk) as (Hcwd1 & _ & _ & _).
  pose proof (noLinks_MkdirAll _ _ _ _ Hmk Hlinks) as Hlinks1.
  pose proof (WriteFile_frame _ _ _ _ Hlinks1 Hwf)
    as (i & Hcwd2 & Hnames2 & Hlook2 & Hdata2 & _ & Hfile2).
  assert (os.resolve fs1 = os.resolve fs) as Hres1
    by by (unfold os.resolve; rewrite Hcwd1).
  assert (os.resolve fs2 = os.resolve fs) as Hres2
    by by (unfold os.resolve; rewrite Hcwd2, Hcwd1).
  rewrite Hres1 in *. cbv zeta in *.
  set (tmp := os.resolve fs (fnlPath +:+ ".tmp")) in *.
  set (final := os.resolve fs fnlPath) in *.
  assert (tmp ≠ final) as Hne by apply resolve_tmp_ne.
  assert (os.lookupPath fs2 (os.resolve fs2 (fnlPath +:+ ".tmp")) = inr (os.Reg i))
    as Hlook2' by by rewrite Hres2.
  destruct (Rename_file _ _ _ _ _ Hlook2' Hren) as (_ & _ & _ & _ & Hfs').
  rewrite Hres2 in Hfs'. fold tmp final in Hfs'.
  assert (∀ k, os.names fs' !! k
               = if decide (k = final) then Some (os.Reg i)
                 else if decide (k = tmp) then None else os.names fs1 !! k) as Hnames.
  { intros k. rewrite Hfs'. simpl. case_decide as Hk1; [by subst; rewrite lookup_insert_eq |].
    rewrite lookup_insert_ne by done.
    case_decide as Hk2; [by subst; rewrite lookup_delete_eq |].
    by rewrite lookup_delete_ne, Hnames2, lookup_insert_ne. }
  assert (os.inodes fs' = os.inodes fs2) as Hino by by rewrite Hfs'.
  exists b, fs1, i. split_and!; [done | done | done | | done | |].
  - rewrite Hfs'. simpl. by rewrite Hcwd2.
  - unfold fileAt in *. rewrite Hnames, decide_True by done.
    rewrite Hnames2, lookup_insert_eq in Hdata2. unfold os.contents in *.
    by rewrite Hino.
  - intros q Hq1 Hq2. rewrite <- (fileAt_MkdirAll _ _ _ _ q Hmk), <- Hfile2 by done.
    unfold fileAt, os.contents. rewrite Hino, Hnames, Hnames2.
    by rewrite !decide_False, lookup_insert_ne.
Qed.

(** X18.  A [Write] that returns [nil] adds its record to the listing of
    the collection: when [ReadAllMap] returned the map [m] before, on a
    file system in order, it returns afterwards [m] with the resource
    bound to the encoded value, and without the name of the temporary
    file. *)
Theorem Write_then_ReadAllMap (d d' : scribble.Driver) (fs fs' : os.FS)
    (c r : string) (v : Value) (m : gmap string string) :
  wellNamed fs → noLinks fs → simpleName c → simpleName r →
  scribble.Write MarshalIndent d fs c r v = scribble.Returns None d' fs' →
  scribble.ReadAllMap d fs c = scribble.Returns (inl m) d fs →
  ∃ b, MarshalIndent v "" scribble.tab = inl b ∧
    scribble.ReadAllMap d' fs' c
    = scribble.Returns (inl (<[r := b]> (delete (r +:+ ".tmp") m))) d' fs'.
Proof.
  intros Hwn Hlinks Hc Hr Hw Hm.
  pose proof (Write_wellNamed _ _ _ _ _ _ _ _ _ Hw Hwn) as Hwn'.
  pose proof Hc as (Hc0 & _).
  destruct (Write_nil_effect _ _ _ _ _ _ _ Hlinks Hw)
    as (b & fs1 & i & Hmk & Hb & Hdir & Hcwd & Hnames & Hfinal & Hframe).
  set (dir := filepath.Join [scribble.dir d; c]) in *.
  set (p := os.resolve fs dir).
  rewrite resolve_Join_name in Hnames, Hfinal, Hframe by done.
  rewrite resolve_tmp_name in Hnames, Hframe by done. fold p in Hnames, Hfinal, Hframe.
  assert (os.lookupPath fs p = inr os.Dir) as Hp.
  { revert Hm. unfold scribble.ReadAllMap. rewrite bool_decide_eq_false_2 by done.
    cbv zeta. fold dir. destruct (scribble.stat dir fs) as [fi | e] eqn:Hstat; [| done].
    intros _. apply Stat_inl in Hstat as (n & Hn & _). fold p in Hn.
    destruct n as [|j]; [done |]. exfalso.
    destruct (MkdirAll_blocked dir fs) as (q & j' & _ & _ & Hmk'); [by right; exists j |].
    congruence. }
  destruct (ReadAllMap_listing d fs c Hwn Hc0 Hp) as [Hsome Hlist].
  fold dir p in Hsome, Hlist.
  assert (∀ x, ¬ p ++ [x] `prefix_of` p) as Hlonger.
  { intros x Hpre%prefix_length. rewrite length_app in Hpre. simpl in Hpre. lia. }
  assert (∀ x, os.names fs1 !! (p ++ [x]) = os.names fs !! (p ++ [x])) as Hchild.
  { intros x. apply (MkdirAll_only_prefixes _ _ _ _ _ Hmk), Hlonger. }
  assert (os.resolve fs' = os.resolve fs) as Hres
    by by (unfold os.resolve; rewrite Hcwd).
  assert (os.lookupPath fs' p = inr os.Dir) as Hp'.
  { rewrite <- Hp. apply lookupPath_ext. intros q Hq.
    destruct q as [|y q]; [done |]. rewrite !nodeAt_names by done.
    rewrite Hnames.
    rewrite !decide_False by (intros Heq; rewrite Heq in Hq; by apply Hlonger in Hq).
    pose proof (MkdirAll_frame _ _ _ _ Hmk) as (_ & _ & _ & Hgrow).
    destruct (Hgrow (y :: q)) as [-> | [Hnone _]]; [done |].
    apply lookupPath_inr in Hp as [Hn Hd].
    destruct (decide (y :: q = p)) as [Heq | Hneq].
    - rewrite <- Heq, nodeAt_names in Hn by done. congruence.
    - specialize (Hd _ Hq Hneq). rewrite nodeAt_names in Hd by done. congruence. }
  destruct (ReadAllMap_listing d' fs' c Hwn' Hc0) as [Hsome' Hlist'];
    [by rewrite Hdir, Hres |].
  rewrite Hdir, Hres in Hsome', Hlist'. fold dir p in Hsome', Hlist'.
  assert (r +:+ ".tmp" ≠ r) as Htmp by by apply append_ne_self.
  destruct (proj2 Hsome') as [m' Hm'].
  { intros x. rewrite Hnames.
    destruct (decide (x = r)) as [-> | Hx1]; [by rewrite decide_True |].
    rewrite decide_False by (by intros [= ?]%app_inv_head).
    destruct (decide (x = r +:+ ".tmp")) as [-> | Hx2]; [by rewrite decide_True |].
    rewrite decide_False by (by intros [= ?]%app_inv_head).
    rewrite Hchild. apply (proj1 Hsome). by exists m. }
  exists b. split; [done |]. rewrite Hm'. do 2 f_equal. apply map_eq. intros x.
  rewrite (Hlist' m' Hm' x).
  destruct (decide (x = r)) as [-> | Hx1]; [by rewrite lookup_insert_eq |].
  rewrite lookup_insert_ne by done.
  destruct (decide (x = r +:+ ".tmp")) as [-> | Hx2].
  - rewrite lookup_delete_eq. unfold fileAt.
    rewrite Hnames, decide_False, decide_True; [done | done |].
    by intros [= ?]%app_inv_head.
  - rewrite lookup_delete_ne, (Hlist m Hm x) by done.
    apply Hframe; by intros [= ?]%app_inv_head.
Qed.

(** X19.  [Write] waits for ever exactly when its names are not empty
    and the mutex of the registry, or the mutex stored for the
    collection, is held; [Delete] exactly when the collection passes its
    test and the mutex of the registry, or the one stored for the joined
    path, is held. *)
Theorem calls_wait_exactly (d : scribble.Driver) (fs : os.FS) (c r : string)
    (v : Value) :
  (scribble.Write MarshalIndent d fs c r v = scribble.Blocks
   ↔ c ≠ "" ∧ r ≠ "" ∧
     (sync.locked (scribble.mutex d) = true
      ∨ ∃ m, scribble.mutexes d !! c = Some m ∧ sync.locked m = true)) ∧
  (scribble.Delete d fs c r = scribble.Blocks
   ↔ deletable c ∧
     (sync.locked (scribble.mutex d) = true
      ∨ ∃ m, scribble.mutexes d
             !! filepath.Join [filepath.Clean c; filepath.Clean r] = Some m
             ∧ sync.locked m = true)).
Proof.
  assert (∀ key, (scribble.getOrCreateMutex d key = None
                  ↔ sync.locked (scribble.mutex d) = true) ∧
            ∀ m d1, scribble.getOrCreateMutex d key = Some (m, d1) →
              sync.locked (scribble.mutex d) = false ∧
              (sync.Lock m = None
               ↔ ∃ m', scribble.mutexes d !! key = Some m' ∧ sync.locked m' = true))
    as Hget.
  { intros key. unfold scribble.getOrCreateMutex, sync.Lock.
    destruct (sync.locked (scribble.mutex d)); [by split |].
    destruct (scribble.mutexes d !! key) as [m' |].
    - split; [by split |]. intros m d1 [= <- _]. split; [done |].
      destruct (sync.locked m') eqn:Hm'.
      + split; [by exists m' | done].
      + split; [done | by intros (? & [= <-] & ?); congruence].
    - split; [by split |]. intros m d1 [= <- _]. split; [done |].
      by split; [| intros (? & ? & ?)]. }
  split.
  - unfold scribble.Write.
    case_bool_decide as Hc; [by split; [| intros (? & _)] |].
    case_bool_decide as Hr; [by split; [| intros (_ & ? & _)] |].
    destruct (Hget c) as [Hnone Hsome].
    destruct (scribble.getOrCreateMutex d c) as [[m d1] |].
    + destruct (Hsome m d1 eq_refl) as [Hfree Hlock].
      destruct (sync.Lock m) as [held |].
      * cbv zeta. split.
        -- destruct (os.MkdirAll _ fs) as [fs1 [e |]]; [done |].
           destruct (MarshalIndent v "" scribble.tab) as [b | e]; [| done].
           destruct (os.WriteFile _ b fs1) as [fs2 [e |]]; [done |].
           by destruct (os.Rename _ _ fs2) as [fs3 e].
        -- intros (_ & _ & [Hheld | Hheld]); [congruence |].
           by apply Hlock in Hheld.
      * split; [| done]. intros _. split_and!; [done | done |].
        right. by apply Hlock.
    + split; [| done]. intros _. split_and!; [done | done |]. left. by apply Hnone.
  - destruct (decide (deletable c)) as [Hc | Hc];
      [| rewrite Delete_rejected by done; by split; [| intros (? & _)]].
    rewrite Delete_unfold by done.
    set (key := filepath.Join [filepath.Clean c; filepath.Clean r]).
    destruct (Hget key) as [Hnone Hsome].
    destruct (scribble.getOrCreateMutex d key) as [[m d1] |].
    + destruct (Hsome m d1 eq_refl) as [Hfree Hlock].
      destruct (sync.Lock m) as [held |].
      * cbv zeta. split.
        -- destruct (scribble.stat _ fs) as [fi | e].
           ++ by destruct (_ || _).
           ++ by destruct (strings.Contains _ _).
        -- intros (_ & [Hheld | Hheld]); [congruence |]. by apply Hlock in Hheld.
      * split; [| done]. intros _. split; [done |]. right. by apply Hlock.
    + split; [| done]. intros _. split; [done |]. left. by apply Hnone.
Qed.

End listing.

Lemma Write_then_ReadAllMap_witness :
  ∃ b, literal.MarshalIndent literal.false_ "" scribble.tab = inl b ∧
    scribble.ReadAllMap
      (driverAfter (scribble.Write literal.MarshalIndent schoolDriver stocked
                      "fish" "bluefish" literal.false_) schoolDriver)
      (fsAfter (scribble.Write literal.MarshalIndent schoolDriver stocked
                  "fish" "bluefish" literal.false_) stocked) "fish"
    = scribble.Returns
        (inl (<[ "bluefish" := b]> (delete ("bluefish" +:+ ".tmp") {[ "redfish" := "true" ]})))
        (driverAfter (scribble.Write literal.MarshalIndent schoolDriver stocked
                        "fish" "bluefish" literal.false_) schoolDriver)
        (fsAfter (scribble.Write literal.MarshalIndent schoolDriver stocked
                    "fish" "bluefish" literal.false_) stocked).
Proof.
  refine (Write_then_ReadAllMap literal.MarshalIndent schoolDriver _ stocked _
            "fish" "bluefish" literal.false_ {[ "redfish" := "true" ]} _ noLinks_stocked
            _ _ _ _);
    [by_decide | by_decide | by_decide | by vm_compute | by vm_compute].
Defined.

(** ** Goroutines never wait *)

Section progress.

Context {Value : Type}.
Variable MarshalIndent : Value → string → string → string + os.error.





End progress.


(** ** A regular file where a directory is expected *)


Lemma prefix_Contains (sub a b : string) :
  String.prefix sub a = true → String.prefix sub (a +:+ b) = true.
Proof.
  revert a. induction sub as [|x sub IH]; intros a;
    [intros _; by destruct (a +:+ b) |].
  destruct a as [|y a]; [done |]. rewrite append_cons. simpl.
  destruct (ascii_dec x y); [apply IH | done].
Qed.

Lemma Contains_app_l (a b sub : string) :
  strings.Contains a sub = true → strings.Contains (a +:+ b) sub = true.
Proof.
  induction a as [|x a IH].
  - simpl. rewrite orb_false_r. intros H. destruct sub; [| done].
    by destruct b.
  - rewrite append_cons. cbn [strings.Contains].
    intros [H | H]%orb_true_iff; apply orb_true_iff.
    + left. by apply (prefix_Contains _ (String x a) b).
    + right. by apply IH.
Qed.

Section misuse.

Context {Value : Type}.
Variable MarshalIndent : Value → string → string → string + os.error.


End misuse.


(** X22.  When [stat] fails, [Delete] decides by the text of the error,
    which holds the path: it returns [nil] when the error is "no such
    file or directory" and also, whatever the error is, when the path of
    the target holds the words "no such file"; when the text of the error
    does not hold them it returns the error "Unable to stat".  The file
    system is left as it was. *)
Theorem Delete_reads_the_error_text (d : scribble.Driver) (fs : os.FS) (c r : string)
    (errno : os.Errno) :
  registryFree d → deletable c →
  let target := deleteTarget d c r in
  let message := os.Error (os.PathError "stat" target errno) in
  os.lookupPath fs (os.resolve fs target) = inl errno →
  (errno = os.ENOENT ∨ strings.Contains target "no such file" = true →
   ∃ d', scribble.Delete d fs c r = scribble.Returns None d' fs) ∧
  (strings.Contains message "no such file" = false →
   ∃ d', scribble.Delete d fs c r
         = scribble.Returns
             (Some (os.errorString
                      ("Unable to stat " +:+ target +:+ " - " +:+ message +:+ "!")))
             d' fs).
Proof.
  intros Hfree Hc target message Hstat.
  assert (∃ d', scribble.Delete d fs c r
                = if strings.Contains message "no such file"
                  then scribble.Returns None d' fs
                  else scribble.Returns
                         (Some (os.errorString
                            ("Unable to stat " +:+ target +:+ " - " +:+ message +:+ "!")))
                         d' fs) as [d' Hcall].
  { rewrite Delete_unfold by done.
    destruct (getOrCreateMutex_free d
                (filepath.Join [filepath.Clean c; filepath.Clean r]) Hfree)
      as (d' & -> & _ & Hdir & _).
    change (sync.Lock sync.zero) with (Some (sync.mkMutex true)).
    cbv beta iota zeta. rewrite Hdir. fold (deleteTarget d c r). fold target.
    unfold scribble.stat, os.Stat. cbv zeta. rewrite Hstat. fold message.
    by exists d'. }
  split.
  - intros Htext. exists d'. rewrite Hcall.
    assert (strings.Contains message "no such file" = true) as ->; [| done].
    destruct Htext as [-> | Htext]; [apply no_such_file |].
    unfold message, os.Error. apply (Contains_app_r "stat " _ "no such file").
    by apply Contains_app_l.
  - intros Htext. exists d'. by rewrite Hcall, Htext.
Qed.

Lemma Delete_reads_the_error_text_witness :
  ∃ d', scribble.Delete schoolDriver misnamed "fish/no such file" "scales"
        = scribble.Returns None d' misnamed.
Proof.
  refine (proj1 (Delete_reads_the_error_text schoolDriver misnamed
                   "fish/no such file" "scales" os.ENOTDIR (registryFree_fresh _)
                   ltac:(by_decide) _) _).
  - by vm_compute.
  - right. by vm_compute.
Defined.
